(** * FindME backend: a shallow embedding of the aggregation, listing,
    role-assignment, comment-moderation and age-progression code, with the
    properties of the specification stated and proved over it.

    Conventions used throughout:
    - Python [int] is [Z] (unbounded), counters that only grow are [nat];
    - [time.time()] is a rational ([Q]): the properties of the cache
      depend on the order of the times only; the [float] that a true
      division returns is the rational value of that binary64 number
      ([Summary.double_of]);
    - Python [None] inside an optional value is [None] of [option];
    - a [dict] is a [gmap]; a database table is the list of its rows;
    - a raised [HTTPException], and an exception that nothing catches
      (the response is then 500), is the [Err] branch of [http]. *)

From Stdlib Require Import ZArith QArith Qabs Lqa Lia List String Ascii.
From Stdlib Require Import Sorting.Sorted Sorting.Permutation.
From stdpp Require Import base option list sorting gmap strings pretty.

Close Scope Q_scope.
Open Scope Z_scope.

(** HTTP outcome of an endpoint: a payload or a status code. *)
Inductive http (A : Type) : Type :=
| Ok (a : A)
| Err (code : Z).
Arguments Ok {A} a.
Arguments Err {A} code.

(* ===================================================================== *)
(** * app/core/cache.py *)
(* ===================================================================== *)

Module Cache.

(** An argument of a cached call. An instance of a class that defines
    neither [__eq__] nor [__hash__] (such as [SubmissionService]) compares by
    identity: [ArgObj] carries the identity of the object. *)
Inductive arg : Type :=
| ArgObj (ident : nat)
| ArgInt (z : Z)
| ArgStr (s : string).

#[global] Instance arg_eq_dec : EqDecision arg.
Proof. solve_decision. Defined.

#[global] Instance arg_countable : Countable arg.
Proof.
  refine (inj_countable'
    (λ a, match a with
          | ArgObj n => inl n
          | ArgInt z => inr (inl z)
          | ArgStr s => inr (inr s)
          end)
    (λ x, match x with
          | inl n => ArgObj n
          | inr (inl z) => ArgInt z
          | inr (inr s) => ArgStr s
          end) _).
  by intros [].
Defined.

(** [key = (func.__module__, func.__qualname__, args,
            tuple(sorted(kwargs.items())))] *)
Record key : Type := Key {
  k_module : string;
  k_qualname : string;
  k_args : list arg;
  k_kwargs : list (string * arg)
}.

#[global] Instance key_eq_dec : EqDecision key.
Proof. solve_decision. Defined.

#[global] Instance key_countable : Countable key.
Proof.
  refine (inj_countable'
    (λ k, (k_module k, k_qualname k, k_args k, k_kwargs k))
    (λ t, match t with (m, q, a, kw) => Key m q a kw end) _).
  by intros [].
Defined.

Section TTL.
(** [V] is the type of the values a cached function returns other than
    [None]; [W] is what the function reads (the database at call time). *)
Context {V W : Type}.

(** [TTLCache._data : Dict[Any, Tuple[float, Any]]] *)
Abbreviation store := (gmap key (Q * option V)).

(** [TTLCache.get]; [now] is the reading of [time.time()]. An expired
    entry is deleted. The result [None] is either of: no entry, an
    expired entry, a stored [None]. *)
Definition get (d : store) (k : key) (now : Q) : option V * store :=
  match d !! k with
  | Some (expires_at, value) =>
      if Qle_bool now expires_at then (value, d)
      else (None, delete k d)
  | None => (None, d)
  end.

(** [TTLCache.set] *)
Definition set (d : store) (k : key) (value : option V)
    (ttl_seconds : Z) (now : Q) : store :=
  <[k := (Qplus now (inject_Z ttl_seconds), value)]> d.

(** [TTLCache.clear] *)
Definition clear (d : store) : store := ∅.

(** The global cache together with the number of times the wrapped
    function body has run. *)
Record state : Type := State {
  data : store;
  calls : nat
}.

Variable func : W → option V.

(** The wrapper returned by [ttl_cache(ttl_seconds)(func)]. [t_get] and
    [t_set] are the two readings of the clock (inside [get] and inside
    [set]); [w] is what [func] reads when it runs. The asynchronous
    wrapper has the same body with [await func(...)]. *)
Definition wrapper (ttl_seconds : Z) (k : key) (t_get t_set : Q) (w : W)
    (st : state) : option V * state :=
  let '(cached, d1) := get (data st) k t_get in
  match cached with
  | Some v => (Some v, State d1 (calls st))
  | None =>
      let result := func w in
      (result, State (set d1 k result ttl_seconds t_set) (S (calls st)))
  end.

End TTL.

(** The key of a call [service.summarize()]: [args = (self,)], no keyword
    arguments. *)
Definition summarize_key (self : nat) : key :=
  Key "app.services.submission_service" "SubmissionService.summarize"
      [ArgObj self] [].

(** [SubmissionService.summarize] is decorated with
    [@ttl_cache(ttl_seconds=60)]. *)
Definition summarize {V W : Type} (repo_summarize : W → option V)
    (self : nat) (t_get t_set : Q) (w : W) (st : state)
    : option V * state :=
  wrapper repo_summarize 60 (summarize_key self) t_get t_set w st.

(** The endpoint [submissions_summary]: each request builds a new
    [SubmissionService(db)] and calls [summarize] on it. The cache keeps a
    reference to every key, hence to every service that was used as [self],
    so the identity of a new service differs from all of them: [next] is
    the first identity not yet given out. *)
Definition submissions_summary {V W : Type} (repo_summarize : W → option V)
    (t_get t_set : Q) (w : W) (hs : nat * state)
    : option V * (nat * state) :=
  let '(next, st) := hs in
  let '(r, st') := summarize repo_summarize next t_get t_set w st in
  (r, (S next, st')).

(** The summary property read literally, for two consecutive calls on one
    and the same service: whenever the second call starts no later than 60
    seconds after the first, it returns what the first returned and the
    function body does not run again. *)
Definition within_ttl_same_output {V W : Type} (f : W → option V) : Prop :=
  ∀ (st : state) (self : nat) (t1 t1' t2 t2' : Q) (w1 w2 : W),
    Qle t1 t1' → Qle t1' t2 → Qle t2 (Qplus t1 (inject_Z 60)) →
    let '(r1, st1) := summarize f self t1 t1' w1 st in
    let '(r2, st2) := summarize f self t2 t2' w2 st1 in
    r2 = r1 ∧ calls st2 = calls st1.

(** ** Properties *)

Lemma get_hit {V : Type} (d : gmap key (Q * option V)) k now e v :
  d !! k = Some (e, v) → Qle now e → get d k now = (v, d).
Proof.
  intros Hk Hle. unfold get. rewrite Hk.
  apply Qle_bool_iff in Hle. by rewrite Hle.
Qed.

Lemma wrapper_hit {V W : Type} (f : W → option V) ttl k t t' w st e v :
  data st !! k = Some (e, Some v) → Qle t e →
  wrapper f ttl k t t' w st = (Some v, st).
Proof.
  intros Hk Hle. unfold wrapper. rewrite (get_hit _ _ _ _ _ Hk Hle).
  by destruct st.
Qed.

Lemma wrapper_expired {V W : Type} (f : W → option V) ttl k t t' w st e v :
  data st !! k = Some (e, v) → Qle_bool t e = false →
  wrapper f ttl k t t' w st
  = (f w, State (set (delete k (data st)) k (f w) ttl t') (S (calls st))).
Proof.
  intros Hk Hlt. unfold wrapper, get. by rewrite Hk, Hlt.
Qed.

Lemma wrapper_miss_stores {V W : Type} (f : W → option V) ttl k t t' w st :
  (get (data st) k t).1 = None →
  ∃ d1, wrapper f ttl k t t' w st
        = (f w, State (<[k := (Qplus t' (inject_Z ttl), f w)]> d1)
                      (S (calls st))).
Proof.
  unfold wrapper. destruct (get (data st) k t) as [c d1]; simpl.
  intros ->. by exists d1.
Qed.

(** C1 (as amended). A call that misses the cache and whose result is not
    [None] stores it; a later call with the same key (same service, same
    arguments) that starts no later than 60 seconds after the value was
    stored returns that value and does not run the function again, whatever
    the database holds by then. *)
Theorem summarize_cached_within_ttl {V W : Type} (f : W → option V)
    (st : state) (self : nat) (t1 t1' t2 t2' : Q) (w1 w2 : W) (v : V) :
  (get (data st) (summarize_key self) t1).1 = None →
  f w1 = Some v →
  Qle t2 (Qplus t1' (inject_Z 60)) →
  let '(r1, st1) := summarize f self t1 t1' w1 st in
  let '(r2, st2) := summarize f self t2 t2' w2 st1 in
  r1 = Some v ∧ r2 = Some v ∧ st2 = st1 ∧ calls st1 = S (calls st).
Proof.
  intros Hmiss Hv Hle. unfold summarize.
  destruct (wrapper_miss_stores f 60 (summarize_key self) t1 t1' w1 st Hmiss)
    as [d1 ->].
  rewrite Hv.
  erewrite wrapper_hit; [done | | exact Hle].
  simpl. apply lookup_insert_eq.
Qed.

Lemma summarize_cached_within_ttl_witness :
  let f : nat → option nat := Some in
  let '(r1, st1) := summarize f 1%nat 0%Q 1%Q 10%nat (State ∅ 0) in
  let '(r2, st2) := summarize f 1%nat 61%Q 62%Q 20%nat st1 in
  r1 = Some 10%nat ∧ r2 = Some 10%nat ∧ st2 = st1
  ∧ calls st1 = S (calls (State (V:=nat) ∅ 0)).
Proof.
  apply (summarize_cached_within_ttl (Some : nat → option nat)
           (State ∅ 0) 1%nat 0%Q 1%Q 61%Q 62%Q 10%nat 20%nat 10%nat).
  - reflexivity.
  - reflexivity.
  - vm_compute. discriminate.
Defined.

(** An entry stored at time 0 expires at 60. A call at 50 is served from
    it; a call at 70, twenty seconds later, finds it expired, runs the
    function again and returns the new value. *)
Lemma within_ttl_same_output_fails :
  ¬ within_ttl_same_output (Some : nat → option nat).
Proof.
  intros H.
  pose (st := State {[ summarize_key 1 := (60%Q, Some 10%nat) ]} 1).
  specialize (H st 1%nat 50%Q 50%Q 70%Q 70%Q 20%nat 20%nat).
  assert (H1 : Qle 50 50) by (vm_compute; discriminate).
  assert (H2 : Qle 50 70) by (vm_compute; discriminate).
  assert (H3 : Qle 70 (Qplus 50 (inject_Z 60))) by (vm_compute; discriminate).
  specialize (H H1 H2 H3).
  assert (Hk : data st !! summarize_key 1 = Some (60%Q, Some 10%nat))
    by apply lookup_singleton_eq.
  unfold summarize in H.
  rewrite (wrapper_hit _ _ _ _ _ _ _ _ _ Hk) in H
    by (vm_compute; discriminate).
  rewrite (wrapper_expired _ _ _ _ _ _ _ _ _ Hk) in H by reflexivity.
  destruct H as [H _]. discriminate H.
Qed.

(** Two requests served by the endpoint one second apart: the second
    service is a new object, its key differs, the function runs again and
    the second response shows the changed data. *)
Lemma submissions_summary_recomputes :
  let f : nat → option nat := Some in
  let '(r1, hs1) := submissions_summary f 0%Q 0%Q 10%nat (0%nat, State ∅ 0) in
  let '(r2, hs2) := submissions_summary f 1%Q 1%Q 20%nat hs1 in
  r1 = Some 10%nat ∧ r2 = Some 20%nat ∧ calls hs2.2 = 2%nat.
Proof. vm_compute. done. Qed.

End Cache.

(* ===================================================================== *)
(** * backend/repositories/users.py, backend/routers/admin.py *)
(* ===================================================================== *)

Module Users.

(** Row of the bridge table [user_roles]. *)
Record UserRole : Type := mkUserRole {
  ur_id : Z;
  ur_user_id : Z;
  ur_role_id : Z
}.

(** Row of the table [role]. *)
Record Role : Type := mkRole {
  role_id : Z;
  role_name : string
}.

(** The part of the database the role assignment touches. [next_role_id]
    and [next_user_role_id] are the values the primary-key sequences give
    next. *)
Record db : Type := mkDb {
  users : list Z;
  roles : list Role;
  user_roles : list UserRole;
  next_role_id : Z;
  next_user_role_id : Z
}.

(** [select(User).where(User.id == user_id)], [scalar_one_or_none()] *)
Definition get_by_id (d : db) (user_id : Z) : option Z :=
  List.find (Z.eqb user_id) (users d).

(** [select(Role).where(Role.name == name)], [scalar_one_or_none()] *)
Definition get_role_by_name (d : db) (name : string) : option Role :=
  List.find (λ r, String.eqb (role_name r) name) (roles d).

(** [get_or_create_role]: the role of that name, added to the table when
    there is none. *)
Definition get_or_create_role (d : db) (name : string) : Role * db :=
  match get_role_by_name d name with
  | Some role => (role, d)
  | None =>
      let role := mkRole (next_role_id d) name in
      (role,
       mkDb (users d) (roles d ++ [role]) (user_roles d)
            (next_role_id d + 1) (next_user_role_id d))
  end.

(** [delete(UserRole).where(UserRole.user_id == user_id)] *)
Definition delete_user_roles (user_id : Z) (t : list UserRole)
    : list UserRole :=
  List.filter (λ ur, negb (ur_user_id ur =? user_id)) t.

(** [add_role]: the existing mappings of the user are deleted, then
    [UserRole(user_id, role_id)] is added to the session; the row is
    written when the caller commits. *)
Definition add_role (d : db) (user_id role_id : Z) : db :=
  mkDb (users d) (roles d)
       (delete_user_roles user_id (user_roles d)
          ++ [mkUserRole (next_user_role_id d) user_id role_id])
       (next_role_id d) (next_user_role_id d + 1).

(** [select(Role).join(UserRole).where(UserRole.user_id == user_id)]:
    the mappings of one user. *)
Definition mappings_of (user_id : Z) (t : list UserRole) : list UserRole :=
  List.filter (λ ur, ur_user_id ur =? user_id) t.

(** [PUT /admin/users/{user_id}/role]: 404 for an unknown user, else the
    role is looked up or created and assigned. The response is made from
    the [User] object loaded at the start: the session keeps it
    ([expire_on_commit=False]), [add_role] goes by the table and not by
    its [roles], and the second [get_by_id] returns the same object, so
    the response carries the mappings the user had before the change. *)
Definition set_user_role (d : db) (user_id : Z) (role_name : string)
    : http (list UserRole) * db :=
  match get_by_id d user_id with
  | None => (Err 404, d)
  | Some _ =>
      let '(role, d1) := get_or_create_role d role_name in
      let d2 := add_role d1 user_id (role_id role) in
      (Ok (mappings_of user_id (user_roles d)), d2)
  end.

(** ** Properties *)

Lemma mappings_of_deleted user_id t :
  mappings_of user_id (delete_user_roles user_id t) = [].
Proof.
  unfold mappings_of, delete_user_roles.
  induction t as [|ur t IH]; simpl; [done|].
  destruct (ur_user_id ur =? user_id) eqn:E; simpl; [done|].
  by rewrite E.
Qed.

Lemma mappings_of_deleted_other user_id other t :
  other ≠ user_id →
  mappings_of other (delete_user_roles user_id t) = mappings_of other t.
Proof.
  intros Hne. unfold mappings_of, delete_user_roles.
  induction t as [|ur t IH]; simpl; [done|].
  destruct (ur_user_id ur =? user_id) eqn:E; simpl.
  - apply Z.eqb_eq in E.
    destruct (ur_user_id ur =? other) eqn:E'; [|done].
    apply Z.eqb_eq in E'. congruence.
  - by rewrite IH.
Qed.

Lemma mappings_of_app user_id t1 t2 :
  mappings_of user_id (t1 ++ t2)
  = mappings_of user_id t1 ++ mappings_of user_id t2.
Proof. apply List.filter_app. Qed.

(** C2. After [add_role] the mappings of the user are exactly the one new
    row, whatever mappings the user had before (none, one or several), and
    the row names the assigned role. *)
Theorem add_role_single_mapping (d : db) (user_id role_id : Z) :
  mappings_of user_id (user_roles (add_role d user_id role_id))
  = [mkUserRole (next_user_role_id d) user_id role_id]
  ∧ length (mappings_of user_id (user_roles (add_role d user_id role_id)))
    = 1%nat.
Proof.
  assert (H : mappings_of user_id (user_roles (add_role d user_id role_id))
              = [mkUserRole (next_user_role_id d) user_id role_id]).
  { unfold add_role; simpl.
    rewrite mappings_of_app, mappings_of_deleted. simpl.
    by rewrite Z.eqb_refl. }
  by rewrite H.
Qed.

(** The mappings of every other user are left as they were. *)
Lemma add_role_frame (d : db) (user_id role_id other : Z) :
  other ≠ user_id →
  mappings_of other (user_roles (add_role d user_id role_id))
  = mappings_of other (user_roles d).
Proof.
  intros Hne. unfold add_role; simpl.
  rewrite mappings_of_app, mappings_of_deleted_other by done.
  simpl. destruct (user_id =? other) eqn:E.
  - apply Z.eqb_eq in E. congruence.
  - by rewrite List.app_nil_r.
Qed.

(** The endpoint: for a known user the table holds one mapping
    afterwards, to a role of the requested name; the response lists the
    mappings from before. *)
Lemma set_user_role_single_mapping (d : db) (user_id : Z) (name : string)
    (l : list UserRole) (d' : db) :
  set_user_role d user_id name = (Ok l, d') →
  l = mappings_of user_id (user_roles d)
  ∧ ∃ ur, mappings_of user_id (user_roles d') = [ur]
          ∧ ur_user_id ur = user_id
          ∧ ∃ r, r ∈ roles d' ∧ role_id r = ur_role_id ur
                 ∧ role_name r = name.
Proof.
  unfold set_user_role.
  destruct (get_by_id d user_id); [|discriminate].
  destruct (get_or_create_role d name) as [role d1] eqn:Hrole.
  intros [= <- <-]. split; [done|].
  assert (Hm : mappings_of user_id
                 (user_roles (add_role d1 user_id (role_id role)))
               = [mkUserRole (next_user_role_id d1) user_id (role_id role)]).
  { unfold add_role; simpl.
    rewrite mappings_of_app, mappings_of_deleted. simpl.
    by rewrite Z.eqb_refl. }
  eexists; split; [exact Hm|]. split; [done|].
  exists role. simpl. split; [|split; [done|]].
  - unfold get_or_create_role in Hrole.
    destruct (get_role_by_name d name) as [r|] eqn:Hfind.
    + injection Hrole as <- <-.
      apply List.find_some in Hfind as [Hin _].
      by apply list_elem_of_In.
    + injection Hrole as <- <-. simpl. set_solver.
  - unfold get_or_create_role in Hrole.
    destruct (get_role_by_name d name) as [r|] eqn:Hfind.
    + injection Hrole as <- <-.
      apply List.find_some in Hfind as [_ Heq].
      by apply String.eqb_eq in Heq.
    + by injection Hrole as <- <-.
Qed.

(** A user holding role "user" (id 2) is given role "admin" (id 1): one
    mapping is left in the table, and it is the one to "admin"; the
    response still shows the mapping to "user". *)
Example admin_replaces_user :
  let d := mkDb [7] [mkRole 1 "admin"; mkRole 2 "user"]
                [mkUserRole 1 7 2] 3 2 in
  set_user_role d 7 "admin"
  = (Ok [mkUserRole 1 7 2],
     mkDb [7] [mkRole 1 "admin"; mkRole 2 "user"] [mkUserRole 2 7 1] 3 3).
Proof. reflexivity. Qed.

End Users.

(* ===================================================================== *)
(** * Formatting of integers: [str], [f"{n:04d}"], [f"{n:02d}"] *)
(* ===================================================================== *)

Module Fmt.

(** [str(n)] for an [int]. *)
Definition str (z : Z) : string := pretty z.

(** [s.zfill(w)] for a string of digits: zeros on the left up to width [w]. *)
Definition zfill (w : nat) (s : string) : string :=
  String.concat "" (replicate (w - String.length s) "0"%string) +:+ s.

(** The format specification [0wd]: the sign first, then zeros up to the
    width, then the digits. *)
Definition format_0d (w : nat) (z : Z) : string :=
  if z <? 0 then "-" +:+ zfill (w - 1) (str (Z.abs z)) else zfill w (str z).

(** The number a string of decimal digits denotes. *)
Definition digits_value (s : string) : Z :=
  fold_left (λ acc c, acc * 10 + (Z.of_nat (nat_of_ascii c) - 48))
            (list_ascii_of_string s) 0.

(** Every number below [bound] is printed on exactly [w] characters that
    read back as the number. *)
Definition reads_back (w : nat) (bound : nat) : bool :=
  forallb (λ n, let z := Z.of_nat n in
                (digits_value (format_0d w z) =? z)
                && (String.length (format_0d w z) =? w)%nat)
          (seq 0 bound).

Lemma reads_back_spec w bound z :
  reads_back w bound = true → 0 ≤ z < Z.of_nat bound →
  digits_value (format_0d w z) = z ∧ String.length (format_0d w z) = w.
Proof.
  intros H Hz. unfold reads_back in H.
  rewrite List.forallb_forall in H.
  specialize (H (Z.to_nat z)).
  rewrite Z2Nat.id in H by lia.
  assert (Hin : In (Z.to_nat z) (seq 0 bound)) by (apply in_seq; lia).
  apply H in Hin. apply andb_true_iff in Hin as [H1 H2].
  split; [by apply Z.eqb_eq|by apply Nat.eqb_eq].
Qed.

Lemma reads_back_4 : reads_back 4 (Z.to_nat 10000) = true.
Proof. vm_compute. reflexivity. Qed.

Lemma reads_back_2 : reads_back 2 (Z.to_nat 100) = true.
Proof. vm_compute. reflexivity. Qed.

Lemma format_04d_spec y :
  0 ≤ y ≤ 9999 →
  digits_value (format_0d 4 y) = y ∧ String.length (format_0d 4 y) = 4%nat.
Proof. intros H. apply (reads_back_spec 4 _ y reads_back_4). lia. Qed.

Lemma format_02d_spec m :
  0 ≤ m ≤ 99 →
  digits_value (format_0d 2 m) = m ∧ String.length (format_0d 2 m) = 2%nat.
Proof. intros H. apply (reads_back_spec 2 _ m reads_back_2). lia. Qed.

Lemma length_append (s t : string) :
  String.length (s +:+ t) = (String.length s + String.length t)%nat.
Proof. induction s as [|c s IH]; simpl; [done|by rewrite IH]. Qed.

Lemma app_inj_length (s1 s2 t1 t2 : string) :
  String.length s1 = String.length s2 →
  s1 +:+ t1 = s2 +:+ t2 → s1 = s2 ∧ t1 = t2.
Proof.
  revert s2. induction s1 as [|c s1 IH]; intros [|c' s2] Hlen Heq;
    simpl in *; try discriminate.
  - done.
  - injection Heq as -> Heq. injection Hlen as Hlen.
    destruct (IH s2 Hlen Heq) as [-> ->]. done.
Qed.

End Fmt.

(* ===================================================================== *)
(** * app/entities/submission.py *)
(* ===================================================================== *)

Module Entity.

(** A [datetime] (or a [date], with [micros = 0]): the calendar fields and
    the microseconds since midnight. All values read from one database
    carry the same offset, so the order of instants is the order of the
    fields. *)
Record datetime : Type := mkDatetime {
  year : Z;
  month : Z;
  day : Z;
  micros : Z
}.

(** [MINYEAR <= year <= MAXYEAR] and [1 <= month <= 12]. *)
Definition valid_datetime (dt : datetime) : Prop :=
  1 ≤ year dt ≤ 9999 ∧ 1 ≤ month dt ≤ 12.

(** The columns of [Submission] that the modelled code reads. [status] is
    not null; [images] is a JSON column holding null or a list of URLs;
    [created_at] is not null. *)
Record Submission : Type := mkSubmission {
  sub_id : Z;
  status : string;
  province : option string;
  gender : option string;
  race : option string;
  dob : option datetime;
  images : option (list string);
  user_id : option Z;
  created_at : datetime
}.

(** [public_status = ("published", "found_alive", "found_dead")] *)
Definition public_status : list string :=
  ["published"; "found_alive"; "found_dead"]%string.

(** [status in public_status] *)
Definition is_public (st : string) : bool :=
  existsb (String.eqb st) public_status.

End Entity.

(* ===================================================================== *)
(** * app/db/repositories/submissions.py: [summarize] *)
(* ===================================================================== *)

Module Summary.
Import Entity.

(** [select(col, func.count(Submission.id)).group_by(col)] read into
    [{str(k): int(v) for k, v in res.all() if k is not None}]: the number
    of rows per value of the column, rows with a null value left out. *)
Definition count_by {A : Type} (col : A → option string) (rows : list A)
    : gmap string nat :=
  foldr (λ r m, match col r with
                | Some k => <[k := S (default 0%nat (m !! k))]> m
                | None => m
                end) ∅ rows.

(** [d.get(key, 0)] *)
Definition get_count (d : gmap string nat) (key : string) : nat :=
  default 0%nat (d !! key).

(** The loop over [images_lists]: a null entry is skipped, any other adds
    its length to [img_total] and one to [items]. ([len] of a list does not
    raise, so the [except] branch is not taken.) *)
Definition images_loop (images_lists : list (option (list string)))
    : nat * nat :=
  fold_left (λ '(img_total, items) imgs,
               match imgs with
               | None => (img_total, items)
               | Some l => (img_total + length l, S items)%nat
               end)
            images_lists (0%nat, 0%nat).

(** A Python float is a binary64 number, modelled as the rational it
    stands for. [a / b] on two ints is the double nearest to the quotient,
    a tie going to the even significand (CPython's [long_true_divide]).
    [double_of] rounds a rational to 53 significant bits that way and
    leaves the exponent free: it is the conversion for the quotients in
    the normal range of binary64, from 2^-1022 up to 2^1024, which those
    of two counts of rows are. *)

(** The integer nearest to [num / den], the even one of two. *)
Definition round_half_even (num den : Z) : Z :=
  let m := num / den in
  let r := num mod den in
  if 2 * r <? den then m
  else if den <? 2 * r then m + 1
  else if Z.even m then m else m + 1.

(** The exponent [e] with [2 ^ e <= n / d < 2 ^ (e + 1)]. *)
Definition binade (n d : positive) : Z :=
  let e0 := Z.log2 (Z.pos n) - Z.log2 (Z.pos d) in
  let above := if 0 <=? e0 then Z.pos d * 2 ^ e0 <=? Z.pos n
               else Z.pos d <=? Z.pos n * 2 ^ (- e0) in
  if above then e0 else e0 - 1.

(** [n / d] rounded to a multiple of [2 ^ (e - 52)], [e] its binade. *)
Definition double_of_pos (n d : positive) : Q :=
  let shift := binade n d - 52 in
  if 0 <=? shift
  then inject_Z (round_half_even (Z.pos n) (Z.pos d * 2 ^ shift) * 2 ^ shift)
  else Qred (Qmake (round_half_even (Z.pos n * 2 ^ (- shift)) (Z.pos d))
                   (Z.to_pos (2 ^ (- shift)))).

Definition double_of (q : Q) : Q :=
  let q := Qred q in
  match Qnum q with
  | Z0 => 0%Q
  | Z.pos n => double_of_pos n (Qden q)
  | Z.neg n => Qopp (double_of_pos n (Qden q))
  end.

(** [a / b] on two counts; both callers test that [b] is positive. *)
Definition true_div (a b : nat) : Q :=
  double_of (Qdiv (inject_Z (Z.of_nat a)) (inject_Z (Z.of_nat b))).

(** [dt.strftime("%Y-%m")] and [f"{y:04d}-{m:02d}"]. ([strftime] writes
    the year on four digits; the C library of some platforms drops the
    leading zeros of a year below 1000, which is why the properties of the
    timeline are stated for years from 1000 on.) *)
Definition month_key (y m : Z) : string :=
  Fmt.format_0d 4 y +:+ "-" +:+ Fmt.format_0d 2 m.

Definition strftime_Ym (dt : datetime) : string :=
  month_key (year dt) (month dt).

(** [range(11, -1, -1)] *)
Definition range_11_down : list Z :=
  (λ k, 11 - Z.of_nat k) <$> seq 0 12.

(** One entry [{"month": key, "count": n}] of the timeline. *)
Record month_entry : Type := mkEntry {
  entry_month : string;
  entry_count : nat
}.

(** The year and the month of the entry [i] months before [now]. *)
Definition timeline_ym (now : datetime) (i : Z) : Z * Z :=
  let y := if 0 <? month now - i then year now else year now - 1 in
  let m := (month now - i - 1) `mod` 12 + 1 in
  (y, m).

Definition timeline_entry (months : gmap string nat) (now : datetime) (i : Z)
    : month_entry :=
  let '(y, m) := timeline_ym now i in
  let key := month_key y m in
  mkEntry key (get_count months key).

(** The part of the summary computed from the submissions (the user
    totals, the admin count and the top submitters, which the properties
    below do not involve, are left out). *)
Record summary : Type := mkSummary {
  total_submissions : nat;
  status_counts : gmap string nat;
  province_counts : gmap string nat;
  gender_counts : gmap string nat;
  race_counts : gmap string nat;
  public_counts : nat * nat;
  found_rate : Q;
  found_alive_count : nat;
  found_dead_count : nat;
  avg_images_per_submission : Q;
  monthly_new : list month_entry
}.

(** [SubmissionRepository.summarize]; [now] is [datetime.utcnow()]. *)
Definition summarize (now : datetime) (subs : list Submission) : summary :=
  let total := length subs in
  let status_counts := count_by (λ s, Some (status s)) subs in
  let public_count :=
    length (List.filter (λ s, is_public (status s)) subs) in
  let non_public := (total - public_count)%nat in
  let found_alive := get_count status_counts "found_alive" in
  let found_dead := get_count status_counts "found_dead" in
  let found_total := (found_alive + found_dead)%nat in
  let '(img_total, items) := images_loop (images <$> subs) in
  let months := count_by (λ s, Some (strftime_Ym (created_at s))) subs in
  {| total_submissions := total;
     status_counts := status_counts;
     province_counts := count_by province subs;
     gender_counts := count_by gender subs;
     race_counts := count_by race subs;
     public_counts := (public_count, non_public);
     found_rate :=
       if (0 <? total)%nat then true_div found_total total else 0%Q;
     found_alive_count := found_alive;
     found_dead_count := found_dead;
     avg_images_per_submission :=
       if (0 <? items)%nat then true_div img_total items else 0%Q;
     monthly_new := timeline_entry months now <$> range_11_down |}.

(** Counting by hand, for the statements. *)
Definition with_status (st : string) (subs : list Submission)
    : list Submission :=
  List.filter (λ s, String.eqb (status s) st) subs.

Definition image_lists (subs : list Submission) : list (list string) :=
  omap images subs.

Definition in_month (y m : Z) (subs : list Submission) : list Submission :=
  List.filter (λ s, (year (created_at s) =? y)
                    && (month (created_at s) =? m)) subs.

(** A rational that can be written with a significand of 53 bits:
    [m * 2 ^ k] or [m / 2 ^ k] with [|m| < 2 ^ 53]. *)
Definition binary64 (x : Q) : Prop :=
  ∃ m k : Z, Z.abs m < 2 ^ 53 ∧ 0 ≤ k
    ∧ (Qeq x (inject_Z (m * 2 ^ k)) ∨ Qeq (x * inject_Z (2 ^ k)) (inject_Z m)).

(** The multiples of [2 ^ s]: the doubles of one binade are multiples of
    its unit in the last place. *)
Definition grid (s j : Z) : Q :=
  if 0 <=? s then inject_Z (j * 2 ^ s) else j # Z.to_pos (2 ^ (- s)).

(** ** Properties *)

Example range_11_down_eq :
  range_11_down = [11; 10; 9; 8; 7; 6; 5; 4; 3; 2; 1; 0].
Proof. reflexivity. Qed.

Lemma count_by_get {A : Type} (col : A → option string) rows k :
  get_count (count_by col rows) k
  = length (List.filter (λ r, match col r with
                              | Some k' => String.eqb k' k
                              | None => false
                              end) rows).
Proof.
  unfold get_count. induction rows as [|r rows IH]; simpl; [done|].
  destruct (col r) as [k'|]; [|done].
  destruct (String.eqb k' k) eqn:E.
  - apply String.eqb_eq in E as ->.
    rewrite lookup_insert_eq. simpl. by rewrite IH.
  - apply String.eqb_neq in E.
    by rewrite lookup_insert_ne.
Qed.

Lemma images_loop_acc l a b :
  fold_left (λ '(img_total, items) (imgs : option (list string)),
               match imgs with
               | None => (img_total, items)
               | Some l => (img_total + length l, S items)%nat
               end) l (a, b)
  = (a + sum_list (length <$> omap id l), b + length (omap id l))%nat.
Proof.
  revert a b. induction l as [|[x|] l IH]; intros a b; simpl.
  - f_equal; lia.
  - rewrite IH. unfold fmap, omap. f_equal; lia.
  - apply IH.
Qed.

Lemma images_loop_spec (subs : list Submission) :
  images_loop (images <$> subs)
  = (sum_list (length <$> image_lists subs), length (image_lists subs)).
Proof.
  unfold images_loop. rewrite images_loop_acc. simpl.
  unfold image_lists.
  assert (H : omap id (images <$> subs) = omap images subs).
  { induction subs as [|s subs IH]; simpl; [done|].
    destruct (images s); simpl; [f_equal|]; exact IH. }
  by rewrite H.
Qed.

(** ** The rounding *)

Lemma round_half_even_near num den :
  0 < den →
  - den ≤ 2 * (round_half_even num den * den - num) ≤ den.
Proof.
  intros Hden. unfold round_half_even.
  pose proof (Z.div_mod num den ltac:(lia)) as Hdm.
  pose proof (Z.mod_pos_bound num den Hden) as Hr.
  set (m := num / den) in *. set (r := num mod den) in *.
  destruct (2 * r <? den) eqn:E1; [apply Z.ltb_lt in E1; nia|].
  apply Z.ltb_ge in E1.
  destruct (den <? 2 * r) eqn:E2; [apply Z.ltb_lt in E2; nia|].
  apply Z.ltb_ge in E2.
  destruct (Z.even m); nia.
Qed.

Lemma binade_lower n d :
  (0 ≤ binade n d → Z.pos d * 2 ^ binade n d ≤ Z.pos n)
  ∧ (binade n d < 0 → Z.pos d ≤ Z.pos n * 2 ^ (- binade n d)).
Proof.
  unfold binade.
  pose proof (Z.log2_spec (Z.pos n) ltac:(lia)) as [Hn1 Hn2].
  pose proof (Z.log2_spec (Z.pos d) ltac:(lia)) as [Hd1 Hd2].
  pose proof (Z.log2_nonneg (Z.pos n)) as Ha.
  pose proof (Z.log2_nonneg (Z.pos d)) as Hb.
  set (a := Z.log2 (Z.pos n)) in *. set (b := Z.log2 (Z.pos d)) in *.
  destruct (0 <=? a - b) eqn:E0.
  - apply Z.leb_le in E0.
    destruct (Z.pos d * 2 ^ (a - b) <=? Z.pos n) eqn:E1.
    + apply Z.leb_le in E1. split; [done|lia].
    + apply Z.leb_gt in E1. split.
      * intros He.
        assert (H : 2 ^ a = 2 ^ (b + 1) * 2 ^ (a - b - 1)).
        { rewrite <- Z.pow_add_r by lia. f_equal. lia. }
        replace (Z.succ b) with (b + 1) in Hd2 by lia.
        assert (0 < 2 ^ (a - b - 1)) by (apply Z.pow_pos_nonneg; lia).
        nia.
      * intros He. assert (a = b) as -> by lia.
        replace (- (b - b - 1)) with 1 by lia. 
        replace (Z.succ b) with (b + 1) in Hd2 by lia.
        rewrite Z.pow_add_r in Hd2 by lia. lia.
  - apply Z.leb_gt in E0.
    destruct (Z.pos d <=? Z.pos n * 2 ^ (- (a - b))) eqn:E1.
    + apply Z.leb_le in E1. split; [lia|done].
    + apply Z.leb_gt in E1. split; [lia|]. intros _.
      assert (H : 2 ^ (b + 1) = 2 ^ a * 2 ^ (- (a - b - 1))).
      { rewrite <- Z.pow_add_r by lia. f_equal. lia. }
      replace (Z.succ b) with (b + 1) in Hd2 by lia.
      assert (0 < 2 ^ (- (a - b - 1))) by (apply Z.pow_pos_nonneg; lia).
      nia.
Qed.

Lemma scaled_error_bound (x n d k : Z) :
  0 < d → 0 < k → - d ≤ 2 * x ≤ d → d * k ≤ n →
  0 < n → Z.abs x * (2 * k) ≤ n.
Proof. intros. nia. Qed.

Lemma double_of_pos_error n d :
  Qle (Qmult (Qabs (Qminus (double_of_pos n d) (Z.pos n # d)))
             (inject_Z (2 ^ 53)))
      (Z.pos n # d).
Proof.
  unfold double_of_pos.
  destruct (binade_lower n d) as [Hlo1 Hlo2].
  set (e := binade n d) in *.
  assert (H53 : 2 ^ 53 = 2 * 2 ^ 52) by reflexivity.
  assert (H52 : 0 < 2 ^ 52) by reflexivity.
  destruct (0 <=? e - 52) eqn:Es.
  - apply Z.leb_le in Es.
    assert (Hp : 0 < 2 ^ (e - 52)) by (apply Z.pow_pos_nonneg; lia).
    pose proof (round_half_even_near (Z.pos n) (Z.pos d * 2 ^ (e - 52))
                  ltac:(lia)) as Hr.
    set (m := round_half_even _ _) in *.
    assert (He : 2 ^ e = 2 ^ (e - 52) * 2 ^ 52).
    { rewrite <- Z.pow_add_r by lia. f_equal. lia. }
    specialize (Hlo1 ltac:(lia)).
    unfold Qle, Qmult, Qabs, Qminus, Qplus, Qopp, inject_Z. simpl Qnum.
    simpl Qden. rewrite Pos.mul_1_l, Pos.mul_1_r, H53.
    apply Z.mul_le_mono_nonneg_r; [lia|].
    replace (m * 2 ^ (e - 52) * Z.pos d + - Z.pos n * 1)
      with (m * (Z.pos d * 2 ^ (e - 52)) - Z.pos n) by lia.
    apply (scaled_error_bound _ _ (Z.pos d * 2 ^ (e - 52)) (2 ^ 52));
      [lia|exact H52|exact Hr| |lia].
    rewrite <- Z.mul_assoc, <- He. exact Hlo1.
  - apply Z.leb_gt in Es.
    assert (Hp : 0 < 2 ^ (- (e - 52))) by (apply Z.pow_pos_nonneg; lia).
    pose proof (round_half_even_near (Z.pos n * 2 ^ (- (e - 52))) (Z.pos d)
                  ltac:(lia)) as Hr.
    set (m := round_half_even _ _) in *.
    rewrite Qred_correct.
    assert (Hk : Z.pos d * 2 ^ 52 ≤ Z.pos n * 2 ^ (- (e - 52))).
    { destruct (Z.le_gt_cases 0 e) as [He|He].
      - specialize (Hlo1 He).
        assert (H : 2 ^ 52 = 2 ^ e * 2 ^ (- (e - 52))).
        { rewrite <- Z.pow_add_r by lia. f_equal. lia. }
        rewrite H. nia.
      - specialize (Hlo2 He).
        assert (H : 2 ^ (- (e - 52)) = 2 ^ (- e) * 2 ^ 52).
        { rewrite <- Z.pow_add_r by lia. f_equal. lia. }
        rewrite H. nia. }
    unfold Qle, Qmult, Qabs, Qminus, Qplus, Qopp, inject_Z. simpl Qnum.
    simpl Qden. rewrite Pos.mul_1_r, H53.
    rewrite Pos2Z.inj_mul, Z2Pos.id by lia.
    set (p := 2 ^ (- (e - 52))) in *.
    assert (Hx := scaled_error_bound (m * Z.pos d - Z.pos n * p)
                    (Z.pos n * p) (Z.pos d) (2 ^ 52)
                    ltac:(lia) H52 Hr Hk ltac:(lia)).
    replace (m * Z.pos d + - Z.pos n * p) with (m * Z.pos d - Z.pos n * p)
      by lia.
    nia.
Qed.

(** The double nearest to a positive rational is within half a unit in
    the last place of it. *)
Lemma double_of_error (q : Q) :
  Qlt 0 q →
  Qle (Qmult (Qabs (Qminus (double_of q) q)) (inject_Z (2 ^ 53))) q.
Proof.
  intros Hq. unfold double_of.
  pose proof (Qred_correct q) as Heq.
  destruct (Qred q) as [rn rd]. cbn [Qnum Qden].
  rewrite <- Heq in Hq.
  destruct rn as [|n|n]; try (unfold Qlt in Hq; simpl in Hq; lia).
  rewrite <- Heq. apply double_of_pos_error.
Qed.

Lemma double_of_proper (p q : Q) : Qeq p q → double_of p = double_of q.
Proof. intros H. unfold double_of. by rewrite (Qred_complete p q H). Qed.

Lemma double_of_zero : double_of 0 = 0%Q.
Proof. reflexivity. Qed.

Lemma round_half_even_ge num den k :
  0 < den → k * den ≤ num → k ≤ round_half_even num den.
Proof.
  intros Hden Hk. unfold round_half_even.
  pose proof (Z.div_mod num den ltac:(lia)) as Hdm.
  pose proof (Z.mod_pos_bound num den Hden) as Hr.
  set (m := num / den) in *. set (r := num mod den) in *.
  assert (k ≤ m) by nia.
  destruct (2 * r <? den); [done|].
  destruct (den <? 2 * r); [lia|].
  destruct (Z.even m); lia.
Qed.

Lemma round_half_even_le num den k :
  0 < den → num ≤ k * den → round_half_even num den ≤ k.
Proof.
  intros Hden Hk. unfold round_half_even.
  pose proof (Z.div_mod num den ltac:(lia)) as Hdm.
  pose proof (Z.mod_pos_bound num den Hden) as Hr.
  set (m := num / den) in *. set (r := num mod den) in *.
  destruct (2 * r <? den) eqn:E1; [apply Z.ltb_lt in E1; nia|].
  apply Z.ltb_ge in E1.
  assert (m + 1 ≤ k) by nia.
  destruct (den <? 2 * r); [lia|].
  destruct (Z.even m); lia.
Qed.

Lemma binade_upper n d :
  (0 ≤ binade n d + 1 → Z.pos n < Z.pos d * 2 ^ (binade n d + 1))
  ∧ (binade n d + 1 < 0 → Z.pos n * 2 ^ (- (binade n d + 1)) < Z.pos d).
Proof.
  unfold binade.
  pose proof (Z.log2_spec (Z.pos n) ltac:(lia)) as [Hn1 Hn2].
  pose proof (Z.log2_spec (Z.pos d) ltac:(lia)) as [Hd1 Hd2].
  pose proof (Z.log2_nonneg (Z.pos n)) as Ha.
  pose proof (Z.log2_nonneg (Z.pos d)) as Hb.
  set (a := Z.log2 (Z.pos n)) in *. set (b := Z.log2 (Z.pos d)) in *.
  replace (Z.succ a) with (a + 1) in Hn2 by lia.
  destruct (0 <=? a - b) eqn:E0.
  - apply Z.leb_le in E0.
    assert (H : 2 ^ (a + 1) = 2 ^ b * 2 ^ (a - b + 1)).
    { rewrite <- Z.pow_add_r by lia. f_equal. lia. }
    assert (0 < 2 ^ (a - b + 1)) by (apply Z.pow_pos_nonneg; lia).
    destruct (Z.pos d * 2 ^ (a - b) <=? Z.pos n) eqn:E1.
    + split; [|lia]. intros _. nia.
    + apply Z.leb_gt in E1. split; [|lia]. intros _.
      replace (a - b - 1 + 1) with (a - b) by lia. exact E1.
  - apply Z.leb_gt in E0.
    destruct (Z.pos d <=? Z.pos n * 2 ^ (- (a - b))) eqn:E1.
    + split.
      * intros He. assert (a + 1 = b) as Hab by lia.
        replace (a - b + 1) with 0 by lia. rewrite Hab in Hn2. simpl. lia.
      * intros He.
        assert (H : 2 ^ b = 2 ^ (a + 1) * 2 ^ (- (a - b + 1))).
        { rewrite <- Z.pow_add_r by lia. f_equal. lia. }
        assert (0 < 2 ^ (- (a - b + 1))) by (apply Z.pow_pos_nonneg; lia).
        nia.
    + apply Z.leb_gt in E1. split; [lia|]. intros _.
      replace (- (a - b - 1 + 1)) with (- (a - b)) by lia. exact E1.
Qed.

Lemma double_of_pos_ge (n d : positive) (k : Z) :
  0 ≤ k ≤ 2 ^ 53 → k * Z.pos d ≤ Z.pos n →
  Qle (inject_Z k) (double_of_pos n d).
Proof.
  intros Hk Hkn. unfold double_of_pos.
  destruct (binade_lower n d) as [Hlo1 Hlo2].
  set (e := binade n d) in *.
  assert (H53 : 2 ^ 53 = 2 * 2 ^ 52) by reflexivity.
  assert (H52 : 0 < 2 ^ 52) by reflexivity.
  destruct (0 <=? e - 52) eqn:Es.
  - apply Z.leb_le in Es.
    assert (Hp : 0 < 2 ^ (e - 52)) by (apply Z.pow_pos_nonneg; lia).
    specialize (Hlo1 ltac:(lia)).
    assert (He : 2 ^ e = 2 ^ 52 * 2 ^ (e - 52)).
    { rewrite <- Z.pow_add_r by lia. f_equal. lia. }
    rewrite <- Zle_Qle.
    destruct (Z.eq_dec e 52) as [->|Hne].
    + replace (52 - 52) with 0 by lia. rewrite Z.pow_0_r, !Z.mul_1_r.
      apply round_half_even_ge; lia.
    + assert (H2 : 2 ≤ 2 ^ (e - 52)).
      { change 2 with (2 ^ 1) at 1. apply Z.pow_le_mono_r; lia. }
      assert (Hm : 2 ^ 52 ≤ round_half_even (Z.pos n)
                                (Z.pos d * 2 ^ (e - 52))).
      { apply round_half_even_ge; [lia|]. rewrite He in Hlo1. lia. }
      nia.
  - apply Z.leb_gt in Es.
    assert (Hp : 0 < 2 ^ (- (e - 52))) by (apply Z.pow_pos_nonneg; lia).
    rewrite Qred_correct.
    assert (Hm : k * 2 ^ (- (e - 52))
                 ≤ round_half_even (Z.pos n * 2 ^ (- (e - 52))) (Z.pos d)).
    { apply round_half_even_ge; [lia|]. nia. }
    unfold Qle, inject_Z. simpl Qnum. simpl Qden.
    rewrite Z2Pos.id by lia. lia.
Qed.

Lemma double_of_pos_le (n d : positive) (k : Z) :
  k < 2 ^ 52 → Z.pos n ≤ k * Z.pos d →
  Qle (double_of_pos n d) (inject_Z k).
Proof.
  intros Hk Hkn. unfold double_of_pos.
  destruct (binade_lower n d) as [Hlo1 Hlo2].
  set (e := binade n d) in *.
  assert (H52 : 0 < 2 ^ 52) by reflexivity.
  destruct (0 <=? e - 52) eqn:Es.
  - apply Z.leb_le in Es. exfalso.
    assert (Hp : 0 < 2 ^ (e - 52)) by (apply Z.pow_pos_nonneg; lia).
    specialize (Hlo1 ltac:(lia)).
    assert (He : 2 ^ e = 2 ^ 52 * 2 ^ (e - 52)).
    { rewrite <- Z.pow_add_r by lia. f_equal. lia. }
    nia.
  - apply Z.leb_gt in Es.
    assert (Hp : 0 < 2 ^ (- (e - 52))) by (apply Z.pow_pos_nonneg; lia).
    rewrite Qred_correct.
    assert (Hm : round_half_even (Z.pos n * 2 ^ (- (e - 52))) (Z.pos d)
                 ≤ k * 2 ^ (- (e - 52))).
    { apply round_half_even_le; [lia|]. nia. }
    unfold Qle, inject_Z. simpl Qnum. simpl Qden.
    rewrite Z2Pos.id by lia. lia.
Qed.

Lemma double_of_ge (q : Q) (k : Z) :
  0 ≤ k ≤ 2 ^ 53 → Qle (inject_Z k) q → Qle (inject_Z k) (double_of q).
Proof.
  intros Hk Hq. unfold double_of.
  pose proof (Qred_correct q) as Heq.
  destruct (Qred q) as [rn rd]. cbn [Qnum Qden].
  rewrite <- Heq in Hq. unfold Qle in Hq. simpl in Hq.
  destruct rn as [|n|n].
  - unfold Qle. simpl. lia.
  - apply double_of_pos_ge; [done|lia].
  - lia.
Qed.

Lemma double_of_le (q : Q) (k : Z) :
  0 ≤ k < 2 ^ 52 → Qle q (inject_Z k) → Qle (double_of q) (inject_Z k).
Proof.
  intros Hk Hq. unfold double_of.
  pose proof (Qred_correct q) as Heq.
  destruct (Qred q) as [rn rd]. cbn [Qnum Qden].
  rewrite <- Heq in Hq. unfold Qle in Hq. simpl in Hq.
  destruct rn as [|n|n].
  - unfold Qle. simpl. lia.
  - apply double_of_pos_le; [lia|lia].
  - pose proof (double_of_pos_ge n rd 0 ltac:(lia) ltac:(lia)) as H0.
    apply Qle_trans with (y := 0%Q).
    + apply (Qopp_le_compat 0). exact H0.
    + unfold Qle. simpl. lia.
Qed.

Lemma double_of_pos_binary64 n d : binary64 (double_of_pos n d).
Proof.
  unfold double_of_pos.
  destruct (binade_upper n d) as [Hup1 Hup2].
  set (e := binade n d) in *.
  assert (H53 : 2 ^ 53 = 2 * 2 ^ 52) by reflexivity.
  assert (H52 : 0 < 2 ^ 52) by reflexivity.
  destruct (0 <=? e - 52) eqn:Es.
  - apply Z.leb_le in Es.
    assert (Hp : 0 < 2 ^ (e - 52)) by (apply Z.pow_pos_nonneg; lia).
    specialize (Hup1 ltac:(lia)).
    assert (He : 2 ^ (e + 1) = 2 ^ (e - 52) * 2 ^ 53).
    { rewrite <- Z.pow_add_r by lia. f_equal. lia. }
    pose proof (round_half_even_le (Z.pos n) (Z.pos d * 2 ^ (e - 52))
                  (2 ^ 53) ltac:(lia) ltac:(nia)) as Hle.
    pose proof (round_half_even_ge (Z.pos n) (Z.pos d * 2 ^ (e - 52))
                  0 ltac:(lia) ltac:(lia)) as Hge.
    set (m := round_half_even _ _) in *.
    destruct (Z.eq_dec m (2 ^ 53)) as [Hm|Hm].
    + exists (2 ^ 52), (e - 52 + 1). split; [rewrite Z.abs_eq; lia|].
      split; [lia|]. left. rewrite Hm, Z.pow_add_r by lia.
      rewrite H53. unfold Qeq, inject_Z. simpl Qnum. simpl Qden. lia.
    + exists m, (e - 52). split; [lia|]. split; [lia|]. left. reflexivity.
  - apply Z.leb_gt in Es.
    assert (Hp : 0 < 2 ^ (- (e - 52))) by (apply Z.pow_pos_nonneg; lia).
    assert (Hn : Z.pos n * 2 ^ (- (e - 52)) < 2 ^ 53 * Z.pos d).
    { destruct (Z.le_gt_cases 0 (e + 1)) as [He|He].
      - specialize (Hup1 He).
        assert (H : 2 ^ 53 = 2 ^ (e + 1) * 2 ^ (- (e - 52))).
        { rewrite <- Z.pow_add_r by lia. f_equal. lia. }
        rewrite H. nia.
      - specialize (Hup2 He).
        assert (H : 2 ^ (- (e - 52)) = 2 ^ (- (e + 1)) * 2 ^ 53).
        { rewrite <- Z.pow_add_r by lia. f_equal. lia. }
        rewrite H. nia. }
    pose proof (round_half_even_le (Z.pos n * 2 ^ (- (e - 52))) (Z.pos d)
                  (2 ^ 53) ltac:(lia) ltac:(lia)) as Hle.
    pose proof (round_half_even_ge (Z.pos n * 2 ^ (- (e - 52))) (Z.pos d)
                  0 ltac:(lia) ltac:(nia)) as Hge.
    set (m := round_half_even _ _) in *.
    destruct (Z.eq_dec m (2 ^ 53)) as [Hm|Hm].
    + exists (2 ^ 52), (- (e - 52) - 1). split; [rewrite Z.abs_eq; lia|].
      split; [lia|]. right. rewrite Qred_correct, Hm.
      assert (H : 2 ^ (- (e - 52)) = 2 ^ 1 * 2 ^ (- (e - 52) - 1)).
      { rewrite <- Z.pow_add_r by lia. f_equal. lia. }
      rewrite Z.pow_1_r in H.
      assert (0 < 2 ^ (- (e - 52) - 1)) by (apply Z.pow_pos_nonneg; lia).
      unfold Qeq, Qmult, inject_Z. simpl Qnum. simpl Qden.
      rewrite Pos.mul_1_r, Z2Pos.id by lia. rewrite H, H53. lia.
    + exists m, (- (e - 52)). split; [lia|]. split; [lia|]. right.
      rewrite Qred_correct.
      unfold Qeq, Qmult, inject_Z. simpl Qnum. simpl Qden.
      rewrite Pos.mul_1_r, Z2Pos.id by lia. lia.
Qed.

Lemma double_of_binary64 q : binary64 (double_of q).
Proof.
  unfold double_of. destruct (Qnum (Qred q)) as [|n|n].
  - exists 0, 0. split; [done|]. split; [done|]. by left.
  - apply double_of_pos_binary64.
  - destruct (double_of_pos_binary64 n (Qden (Qred q)))
      as (m & k & Hm & Hk & [H|H]).
    + exists (- m), k. split; [lia|]. split; [done|]. left.
      rewrite H. unfold Qeq, Qopp, inject_Z. simpl. lia.
    + exists (- m), k. split; [lia|]. split; [done|]. right.
      assert (E : Qeq (- double_of_pos n (Qden (Qred q)) * inject_Z (2 ^ k))
                      (- (double_of_pos n (Qden (Qred q)) * inject_Z (2 ^ k))))
        by ring.
      rewrite E, H. unfold Qeq, Qopp, inject_Z. simpl. lia.
Qed.

Lemma round_half_even_nearest num den j :
  0 < den →
  Z.abs (round_half_even num den * den - num) ≤ Z.abs (j * den - num).
Proof.
  intros Hden. pose proof (round_half_even_near num den Hden) as Hr.
  set (m := round_half_even num den) in *.
  destruct (Z.eq_dec j m) as [->|Hj]; [lia|].
  destruct (Z.lt_ge_cases j m); nia.
Qed.

Lemma double_of_pos_grid n d j :
  Qle (Qabs (double_of_pos n d - (Z.pos n # d)))
      (Qabs (grid (binade n d - 52) j - (Z.pos n # d))).
Proof.
  unfold double_of_pos, grid.
  set (s := binade n d - 52).
  destruct (0 <=? s) eqn:Es.
  - apply Z.leb_le in Es.
    assert (Hp : 0 < 2 ^ s) by (apply Z.pow_pos_nonneg; lia).
    pose proof (round_half_even_nearest (Z.pos n) (Z.pos d * 2 ^ s) j
                  ltac:(lia)) as H.
    set (m := round_half_even _ _) in *.
    unfold Qle, Qabs, Qminus, Qplus, Qopp, inject_Z. simpl Qnum. simpl Qden.
    apply Z.mul_le_mono_nonneg_r; [lia|].
    replace (m * 2 ^ s * Z.pos d + - Z.pos n * 1)
      with (m * (Z.pos d * 2 ^ s) - Z.pos n) by lia.
    replace (j * 2 ^ s * Z.pos d + - Z.pos n * 1)
      with (j * (Z.pos d * 2 ^ s) - Z.pos n) by lia.
    exact H.
  - apply Z.leb_gt in Es.
    assert (Hp : 0 < 2 ^ (- s)) by (apply Z.pow_pos_nonneg; lia).
    pose proof (round_half_even_nearest (Z.pos n * 2 ^ (- s)) (Z.pos d) j
                  ltac:(lia)) as H.
    set (m := round_half_even _ _) in *.
    rewrite Qred_correct.
    unfold Qle, Qabs, Qminus, Qplus, Qopp, inject_Z. simpl Qnum. simpl Qden.
    apply Z.mul_le_mono_nonneg_r; [lia|].
    rewrite Z2Pos.id by lia.
    replace (m * Z.pos d + - Z.pos n * 2 ^ (- s))
      with (m * Z.pos d - Z.pos n * 2 ^ (- s)) by lia.
    replace (j * Z.pos d + - Z.pos n * 2 ^ (- s))
      with (j * Z.pos d - Z.pos n * 2 ^ (- s)) by lia.
    exact H.
Qed.

Lemma grid_binade_le n d :
  Qle (grid (binade n d - 52) (2 ^ 52)) (Z.pos n # d).
Proof.
  unfold grid. destruct (binade_lower n d) as [Hlo1 Hlo2].
  set (e := binade n d) in *.
  destruct (0 <=? e - 52) eqn:Es.
  - apply Z.leb_le in Es. specialize (Hlo1 ltac:(lia)).
    assert (He : 2 ^ e = 2 ^ 52 * 2 ^ (e - 52)).
    { rewrite <- Z.pow_add_r by lia. f_equal. lia. }
    unfold Qle, inject_Z. simpl Qnum. simpl Qden. rewrite <- He. lia.
  - apply Z.leb_gt in Es.
    assert (Hp : 0 < 2 ^ (- (e - 52))) by (apply Z.pow_pos_nonneg; lia).
    unfold Qle. simpl Qnum. simpl Qden. rewrite Z2Pos.id by lia.
    destruct (Z.le_gt_cases 0 e) as [He|He].
    + specialize (Hlo1 He).
      assert (H : 2 ^ 52 = 2 ^ e * 2 ^ (- (e - 52))).
      { rewrite <- Z.pow_add_r by lia. f_equal. lia. }
      rewrite H. nia.
    + specialize (Hlo2 He).
      assert (H : 2 ^ (- (e - 52)) = 2 ^ (- e) * 2 ^ 52).
      { rewrite <- Z.pow_add_r by lia. f_equal. lia. }
      rewrite H. nia.
Qed.

Lemma binary64_grid (s : Z) (r : Q) :
  binary64 r → (∃ j, Qeq r (grid s j)) ∨ Qlt r (grid s (2 ^ 52)).
Proof.
  intros (m & k & Hm & Hk & Hr).
  assert (H53 : 2 ^ 53 = 2 * 2 ^ 52) by reflexivity.
  assert (H52 : 0 < 2 ^ 52) by reflexivity.
  assert (Hpk : 0 < 2 ^ k) by (apply Z.pow_pos_nonneg; lia).
  unfold grid. destruct (0 <=? s) eqn:Es.
  - apply Z.leb_le in Es.
    assert (Hps : 0 < 2 ^ s) by (apply Z.pow_pos_nonneg; lia).
    destruct Hr as [Hr|Hr].
    + destruct (Z.le_gt_cases s k) as [Hsk|Hsk].
      * left. exists (m * 2 ^ (k - s)). rewrite Hr.
        assert (H : 2 ^ k = 2 ^ (k - s) * 2 ^ s).
        { rewrite <- Z.pow_add_r by lia. f_equal. lia. }
        rewrite H. unfold Qeq, inject_Z. simpl. lia.
      * right. rewrite Hr.
        assert (H : 2 ^ s = 2 ^ k * 2 ^ (s - k)).
        { rewrite <- Z.pow_add_r by lia. f_equal. lia. }
        assert (H2 : 2 ^ 1 ≤ 2 ^ (s - k)) by (apply Z.pow_le_mono_r; lia).
        rewrite Z.pow_1_r in H2.
        rewrite <- Zlt_Qlt, H. nia.
    + destruct (Z.eq_dec (s + k) 0) as [H0|H0].
      * left. exists m. assert (s = 0) as -> by lia.
        assert (k = 0) as -> by lia.
        rewrite Z.pow_0_r, Z.mul_1_r. rewrite <- Hr.
        change (inject_Z 1) with 1%Q. by rewrite Qmult_1_r.
      * right. assert (H2 : 2 ^ 1 ≤ 2 ^ (s + k))
          by (apply Z.pow_le_mono_r; lia).
        rewrite Z.pow_1_r, Z.pow_add_r in H2 by lia.
        unfold Qeq, Qmult, inject_Z in Hr. simpl in Hr.
        unfold Qlt, inject_Z. simpl.
        destruct r as [rn rd]. simpl in *. nia.
  - apply Z.leb_gt in Es.
    assert (Hps : 0 < 2 ^ (- s)) by (apply Z.pow_pos_nonneg; lia).
    destruct Hr as [Hr|Hr].
    + left. exists (m * 2 ^ k * 2 ^ (- s)). rewrite Hr.
      unfold Qeq, inject_Z. simpl. rewrite Z2Pos.id by lia. lia.
    + destruct (Z.le_gt_cases k (- s)) as [Hsk|Hsk].
      * left. exists (m * 2 ^ (- s - k)).
        assert (H : 2 ^ (- s) = 2 ^ k * 2 ^ (- s - k)).
        { rewrite <- Z.pow_add_r by lia. f_equal. lia. }
        unfold Qeq, Qmult, inject_Z in Hr. simpl in Hr.
        unfold Qeq. simpl. rewrite Z2Pos.id by lia.
        destruct r as [rn rd]. simpl in *. rewrite H. nia.
      * right.
        assert (H : 2 ^ k = 2 ^ (- s) * 2 ^ (k + s)).
        { rewrite <- Z.pow_add_r by lia. f_equal. lia. }
        assert (H2 : 2 ^ 1 ≤ 2 ^ (k + s)) by (apply Z.pow_le_mono_r; lia).
        rewrite Z.pow_1_r in H2.
        unfold Qeq, Qmult, inject_Z in Hr. simpl in Hr.
        unfold Qlt. simpl. rewrite Z2Pos.id by lia.
        destruct r as [rn rd]. simpl in *.
        assert (rn * 2 ^ k < 2 ^ 53 * Z.pos rd) by nia.
        rewrite H in H0. nia.
Qed.

Lemma double_of_pos_nearest n d r :
  binary64 r →
  Qle (Qabs (double_of_pos n d - (Z.pos n # d))) (Qabs (r - (Z.pos n # d))).
Proof.
  intros Hr.
  destruct (binary64_grid (binade n d - 52) r Hr) as [[j Hj]|Hlt].
  - rewrite Hj. apply double_of_pos_grid.
  - pose proof (grid_binade_le n d) as Hg.
    pose proof (double_of_pos_grid n d (2 ^ 52)) as H.
    set (g := grid _ _) in *. set (q := (Z.pos n # d)%Q) in *.
    rewrite (Qabs_neg (g - q)) in H by lra.
    rewrite (Qabs_neg (r - q)) by lra. lra.
Qed.

(** The double of a rational that is not negative is a nearest one among
    the rationals with a significand of 53 bits. *)
Lemma double_of_nearest q r :
  Qle 0 q → binary64 r →
  Qle (Qabs (double_of q - q)) (Qabs (r - q)).
Proof.
  intros Hq Hr. unfold double_of.
  pose proof (Qred_correct q) as Heq.
  destruct (Qred q) as [rn rd]. cbn [Qnum Qden].
  rewrite <- Heq in Hq. rewrite <- Heq.
  destruct rn as [|n|n].
  - assert (E : Qeq (0 - (0 # rd)) 0) by (unfold Qeq; simpl; lia).
    rewrite E. change (Qabs 0) with 0%Q. apply Qabs_nonneg.
  - by apply double_of_pos_nearest.
  - unfold Qle in Hq. simpl in Hq. lia.
Qed.

(** One third, one tenth, and the two ties above [2 ^ 53], as Python
    prints them with [as_integer_ratio]. *)
Example double_of_third :
  double_of (1 # 3) = (6004799503160661 # 18014398509481984)%Q.
Proof. vm_compute. reflexivity. Qed.

Example double_of_tenth :
  double_of (1 # 10) = (3602879701896397 # 36028797018963968)%Q.
Proof. vm_compute. reflexivity. Qed.

Example double_of_ties :
  double_of (inject_Z (2 ^ 53 + 1)) = inject_Z (2 ^ 53)
  ∧ double_of (inject_Z (2 ^ 53 + 3)) = inject_Z (2 ^ 53 + 4).
Proof. split; vm_compute; reflexivity. Qed.

Lemma true_div_zero b : true_div 0 b = 0%Q.
Proof.
  unfold true_div. rewrite (double_of_proper _ 0%Q); [done|].
  unfold Qdiv. apply Qmult_0_l.
Qed.

Lemma true_div_double (a b : nat) :
  (0 < b)%nat → true_div a b = double_of (Z.of_nat a # Pos.of_nat b).
Proof.
  intros Hb. unfold true_div. apply double_of_proper.
  destruct b as [|b]; [lia|].
  rewrite <- Pos.of_nat_succ.
  change (Z.of_nat (S b)) with (Z.pos (Pos.of_succ_nat b)).
  symmetry. apply Qmake_Qdiv.
Qed.

(** [a / b] is a double, and no double is nearer to the quotient; it is
    off by at most one part in [2 ^ 53]. *)
Lemma true_div_nearest (a b : nat) :
  (0 < b)%nat →
  binary64 (true_div a b)
  ∧ (∀ r, binary64 r →
       Qle (Qabs (true_div a b - (Z.of_nat a # Pos.of_nat b)))
           (Qabs (r - (Z.of_nat a # Pos.of_nat b))))
  ∧ Qle (Qabs (true_div a b - (Z.of_nat a # Pos.of_nat b))
         * inject_Z (2 ^ 53))
        (Z.of_nat a # Pos.of_nat b).
Proof.
  intros Hb. rewrite true_div_double by done.
  split; [apply double_of_binary64|]. split.
  - intros r Hr. apply double_of_nearest; [|done].
    unfold Qle. simpl. lia.
  - destruct a as [|a].
    + unfold Qle. simpl. lia.
    + apply double_of_error. unfold Qlt. simpl. lia.
Qed.

Lemma with_status_nil st subs :
  Forall (λ s, status s ≠ st) subs → with_status st subs = [].
Proof.
  unfold with_status. induction 1 as [|s subs Hs _ IH]; simpl; [done|].
  apply String.eqb_neq in Hs. by rewrite Hs.
Qed.

Lemma summarize_found_rate now subs :
  found_rate (summarize now subs)
  = if (0 <? length subs)%nat
    then true_div (length (with_status "found_alive" subs)
                   + length (with_status "found_dead" subs)) (length subs)
    else 0%Q.
Proof.
  unfold summarize. destruct (images_loop _). simpl.
  by rewrite !count_by_get.
Qed.

Lemma summarize_avg now subs :
  avg_images_per_submission (summarize now subs)
  = if (0 <? length (image_lists subs))%nat
    then true_div (sum_list (length <$> image_lists subs))
                  (length (image_lists subs))
    else 0%Q.
Proof. unfold summarize. by rewrite images_loop_spec. Qed.

(** C3. When there are submissions, [found_rate] is the float of the
    number of submissions found alive plus the number found dead, divided
    by the number of submissions: a double, such that no double is nearer
    to that quotient, off from it by at most one part in [2 ^ 53]. It is
    0 when there are no submissions, and 0 when no submission has a found
    status. *)
Theorem found_rate_spec (now : datetime) (subs : list Submission) :
  let found := (length (with_status "found_alive" subs)
                + length (with_status "found_dead" subs))%nat in
  let quotient := (Z.of_nat found # Pos.of_nat (length subs))%Q in
  let rate := found_rate (summarize now subs) in
  (length subs ≠ 0%nat →
     rate = double_of quotient
     ∧ binary64 rate
     ∧ (∀ r, binary64 r → Qle (Qabs (rate - quotient)) (Qabs (r - quotient)))
     ∧ Qle (Qabs (rate - quotient) * inject_Z (2 ^ 53)) quotient)
  ∧ (length subs = 0%nat → rate = 0%Q)
  ∧ (Forall (λ s, status s ≠ "found_alive"%string
                  ∧ status s ≠ "found_dead"%string) subs →
     rate = 0%Q).
Proof.
  intros found quotient rate. subst found quotient rate.
  rewrite summarize_found_rate. split; [|split].
  - intros Hne.
    assert (Hpos : (0 < length subs)%nat) by lia.
    apply Nat.ltb_lt in Hpos as Hb. rewrite Hb.
    split; [by apply true_div_double|]. by apply true_div_nearest.
  - intros H0. by rewrite H0.
  - intros Hnone.
    rewrite !with_status_nil.
    + simpl. destruct (0 <? length subs)%nat; [apply true_div_zero|done].
    + eapply Forall_impl; [exact Hnone|]. by intros s [_ ?].
    + eapply Forall_impl; [exact Hnone|]. by intros s [? _].
Qed.

Lemma found_rate_spec_witness :
  let mk st := mkSubmission 1 st None None None None None None
                 (mkDatetime 2024 5 1 0) in
  let subs := [mk "found_alive"; mk "pending"; mk "published"]%string in
  let rate := found_rate (summarize (mkDatetime 2024 6 2 0) subs) in
  rate = (6004799503160661 # 18014398509481984)%Q
  ∧ Qle (Qabs (rate - (1 # 3)) * inject_Z (2 ^ 53)) (1 # 3).
Proof.
  intros mk subs rate.
  destruct (found_rate_spec (mkDatetime 2024 6 2 0) subs) as [H _].
  destruct (H ltac:(discriminate)) as (Hd & _ & _ & Herr).
  split; [|exact Herr].
  etransitivity; [exact Hd|]. vm_compute. reflexivity.
Defined.

(** One submission out of four found alive, one found dead: the rate is
    one half. *)
Example found_rate_half :
  let mk st := mkSubmission 1 st None None None None None None
                 (mkDatetime 2024 5 1 0) in
  found_rate (summarize (mkDatetime 2024 6 2 0)
    [mk "found_alive"; mk "pending"; mk "found_dead"; mk "rejected"]
    %string)
  = (1 # 2)%Q.
Proof. vm_compute. reflexivity. Qed.

(** C4. When some image list is not null, the average is the float of
    the number of images in the non-null image lists divided by the
    number of non-null image lists: a double, such that no double is
    nearer to that quotient, off from it by at most one part in
    [2 ^ 53]. The rows whose image list is null can be removed without
    changing it, and it is 0 when every image list is null. *)
Theorem avg_images_spec (now : datetime) (subs : list Submission) :
  let lists := omap images subs in
  let quotient :=
    (Z.of_nat (sum_list (length <$> lists)) # Pos.of_nat (length lists))%Q in
  let avg := avg_images_per_submission (summarize now subs) in
  (lists ≠ [] →
     avg = double_of quotient
     ∧ binary64 avg
     ∧ (∀ r, binary64 r → Qle (Qabs (avg - quotient)) (Qabs (r - quotient)))
     ∧ Qle (Qabs (avg - quotient) * inject_Z (2 ^ 53)) quotient)
  ∧ avg_images_per_submission
      (summarize now (List.filter (λ s, bool_decide (images s ≠ None)) subs))
    = avg
  ∧ (Forall (λ s, images s = None) subs → avg = 0%Q).
Proof.
  intros lists quotient avg. subst lists quotient avg.
  change (omap images subs) with (image_lists subs).
  rewrite !summarize_avg. split; [|split].
  - intros Hne.
    assert (Hpos : (0 < length (image_lists subs))%nat).
    { destruct (image_lists subs); [done|simpl; lia]. }
    apply Nat.ltb_lt in Hpos as Hb. rewrite Hb.
    split; [by apply true_div_double|]. by apply true_div_nearest.
  - assert (H : image_lists
                  (List.filter (λ s, bool_decide (images s ≠ None)) subs)
                = image_lists subs).
    { unfold image_lists. induction subs as [|s subs IH]; simpl; [done|].
      destruct (images s) as [l|] eqn:Hs; simpl; rewrite ?Hs;
        [f_equal|]; exact IH. }
    by rewrite H.
  - intros Hnull.
    assert (H : image_lists subs = []).
    { unfold image_lists. induction Hnull as [|s subs Hs _ IH]; simpl;
        [done|]. by rewrite Hs. }
    by rewrite H.
Qed.

Lemma avg_images_spec_witness :
  let mk imgs := mkSubmission 1 "pending" None None None None imgs None
                   (mkDatetime 2024 5 1 0) in
  let subs := [mk (Some ["a"; "b"; "c"]); mk None; mk (Some ["d"; "e"]);
               mk (Some ["f"; "g"])]%string in
  let avg := avg_images_per_submission
               (summarize (mkDatetime 2024 6 2 0) subs) in
  avg = (5254199565265579 # 2251799813685248)%Q
  ∧ Qle (Qabs (avg - (7 # 3)) * inject_Z (2 ^ 53)) (7 # 3).
Proof.
  intros mk subs avg.
  destruct (avg_images_spec (mkDatetime 2024 6 2 0) subs) as [H _].
  destruct (H ltac:(discriminate)) as (Hd & _ & _ & Herr).
  split; [|exact Herr].
  etransitivity; [exact Hd|]. vm_compute. reflexivity.
Defined.

(** Three images, a null list, one image: the average is (3 + 1) / 2. *)
Example avg_images_skips_null :
  let mk imgs := mkSubmission 1 "pending" None None None None imgs None
                   (mkDatetime 2024 5 1 0) in
  avg_images_per_submission (summarize (mkDatetime 2024 6 2 0)
    [mk (Some ["a"; "b"; "c"]); mk None; mk (Some ["d"])]%string)
  = (2 # 1)%Q.
Proof. vm_compute. reflexivity. Qed.

Lemma month_key_length y m :
  0 ≤ y ≤ 9999 → 0 ≤ m ≤ 99 → String.length (month_key y m) = 7%nat.
Proof.
  intros Hy Hm. unfold month_key.
  rewrite !Fmt.length_append.
  destruct (Fmt.format_04d_spec y Hy) as [_ ->].
  destruct (Fmt.format_02d_spec m Hm) as [_ ->]. done.
Qed.

Lemma month_key_inj y1 m1 y2 m2 :
  0 ≤ y1 ≤ 9999 → 0 ≤ m1 ≤ 99 → 0 ≤ y2 ≤ 9999 → 0 ≤ m2 ≤ 99 →
  month_key y1 m1 = month_key y2 m2 → y1 = y2 ∧ m1 = m2.
Proof.
  intros Hy1 Hm1 Hy2 Hm2 Heq. unfold month_key in Heq.
  destruct (Fmt.format_04d_spec y1 Hy1) as [Vy1 Ly1].
  destruct (Fmt.format_04d_spec y2 Hy2) as [Vy2 Ly2].
  destruct (Fmt.format_02d_spec m1 Hm1) as [Vm1 _].
  destruct (Fmt.format_02d_spec m2 Hm2) as [Vm2 _].
  apply Fmt.app_inj_length in Heq as [Hy Hm]; [|by rewrite Ly1, Ly2].
  injection Hm as Hm.
  change (Fmt.format_0d 2 m1 = Fmt.format_0d 2 m2) in Hm.
  split.
  - rewrite <- Vy1, Hy. exact Vy2.
  - rewrite <- Vm1, Hm. exact Vm2.
Qed.

Lemma timeline_ym_spec (now : datetime) (i : Z) :
  1 ≤ month now ≤ 12 → 0 ≤ i ≤ 11 →
  let '(y, m) := timeline_ym now i in
  1 ≤ m ≤ 12 ∧ 12 * y + m = 12 * year now + month now - i
  ∧ year now - 1 ≤ y ≤ year now.
Proof.
  intros HM Hi. unfold timeline_ym.
  destruct (0 <? month now - i) eqn:E.
  - apply Z.ltb_lt in E. rewrite Z.mod_small by lia. lia.
  - apply Z.ltb_ge in E.
    replace (month now - i - 1) with (month now - i - 1 + 12 + (-1) * 12)
      by lia.
    rewrite Z.mod_add by lia. rewrite Z.mod_small by lia. lia.
Qed.

Lemma months_get (subs : list Submission) (y m : Z) :
  0 ≤ y ≤ 9999 → 1 ≤ m ≤ 12 →
  Forall (λ s, 1000 ≤ year (created_at s) ≤ 9999
               ∧ 1 ≤ month (created_at s) ≤ 12) subs →
  get_count (count_by (λ s, Some (strftime_Ym (created_at s))) subs)
            (month_key y m)
  = length (in_month y m subs).
Proof.
  intros Hy Hm Hsubs. rewrite count_by_get. unfold in_month. f_equal.
  apply List.filter_ext_in. intros s Hin.
  rewrite List.Forall_forall in Hsubs. destruct (Hsubs s Hin) as [Hys Hms].
  unfold strftime_Ym.
  destruct (String.eqb _ _) eqn:E.
  - apply String.eqb_eq in E.
    apply month_key_inj in E as [-> ->]; [|lia..].
    by rewrite !Z.eqb_refl.
  - apply String.eqb_neq in E. symmetry. apply andb_false_iff.
    destruct (year (created_at s) =? y) eqn:E1; [|by left].
    destruct (month (created_at s) =? m) eqn:E2; [|by right].
    apply Z.eqb_eq in E1, E2. congruence.
Qed.

(** C6. [monthly_new] has 12 entries. The entry at position [k] is keyed by
    the four digits of a year, a dash and the two digits of a month; that
    month is the one [11 - k] months before the month of [now], so the
    entries run over 12 consecutive months, oldest first, and end at the
    current month; its count is the number of submissions created in that
    month, 0 when there is none. *)
Theorem monthly_new_spec (now : datetime) (subs : list Submission) :
  valid_datetime now →
  Forall (λ s, 1000 ≤ year (created_at s) ≤ 9999
               ∧ 1 ≤ month (created_at s) ≤ 12) subs →
  length (monthly_new (summarize now subs)) = 12%nat
  ∧ ∀ k : nat, (k < 12)%nat →
      ∃ y m : Z,
        monthly_new (summarize now subs) !! k
        = Some (mkEntry (month_key y m) (length (in_month y m subs)))
        ∧ month_key y m = Fmt.format_0d 4 y +:+ "-" +:+ Fmt.format_0d 2 m
        ∧ String.length (month_key y m) = 7%nat
        ∧ 1 ≤ m ≤ 12
        ∧ 12 * y + m = 12 * year now + month now - 11 + Z.of_nat k.
Proof.
  intros [HY HM] Hsubs.
  assert (E : monthly_new (summarize now subs)
    = timeline_entry
        (count_by (λ s, Some (strftime_Ym (created_at s))) subs) now
        <$> range_11_down).
  { unfold summarize. by destruct (images_loop _). }
  rewrite E. split; [by rewrite length_fmap|].
  intros k Hk.
  pose proof (timeline_ym_spec now (11 - Z.of_nat k) HM ltac:(lia)) as Hym.
  unfold range_11_down.
  rewrite !list_lookup_fmap, lookup_seq_lt by done. simpl.
  unfold timeline_entry.
  destruct (timeline_ym now (11 - Z.of_nat k)) as [y m].
  destruct Hym as (Hm & Hidx & Hy).
  exists y, m. rewrite months_get by (done || lia).
  split; [done|]. split; [done|].
  split; [apply month_key_length; lia|]. split; [done|]. lia.
Qed.

Lemma monthly_new_spec_witness :
  let now := mkDatetime 2024 2 15 0 in
  let mk y m := mkSubmission 1 "pending" None None None None None None
                  (mkDatetime y m 1 0) in
  length (monthly_new (summarize now [mk 2023 3; mk 2024 2; mk 2024 2;
                                      mk 2022 12]))
  = 12%nat.
Proof.
  refine (proj1 (monthly_new_spec (mkDatetime 2024 2 15 0) _ _ _)).
  - unfold valid_datetime; simpl; lia.
  - repeat constructor; simpl; lia.
Defined.

(** In February 2024 the timeline runs from March 2023 to February 2024;
    a submission of December 2022 is in none of its months. *)
Example monthly_new_feb_2024 :
  let now := mkDatetime 2024 2 15 0 in
  let mk y m := mkSubmission 1 "pending" None None None None None None
                  (mkDatetime y m 1 0) in
  monthly_new (summarize now [mk 2023 3; mk 2024 2; mk 2024 2; mk 2022 12])
  = [mkEntry "2023-03" 1; mkEntry "2023-04" 0; mkEntry "2023-05" 0;
     mkEntry "2023-06" 0; mkEntry "2023-07" 0; mkEntry "2023-08" 0;
     mkEntry "2023-09" 0; mkEntry "2023-10" 0; mkEntry "2023-11" 0;
     mkEntry "2023-12" 0; mkEntry "2024-01" 0; mkEntry "2024-02" 2].
Proof. vm_compute. reflexivity. Qed.

End Summary.

(* ===================================================================== *)
(** * Listing: [list_submissions], [SubmissionService.list],
      [SubmissionRepository.list] *)
(* ===================================================================== *)

Module Listing.
Import Entity.

(** Order of two [datetime] values: year, then month, then day, then the
    time of the day. *)
Definition dt_leb (a b : datetime) : bool :=
  (year a <? year b)
  || ((year a =? year b)
      && ((month a <? month b)
          || ((month a =? month b)
              && ((day a <? day b)
                  || ((day a =? day b) && (micros a <=? micros b)))))).

(** [a] may stand before [b] under [ORDER BY created_at DESC]. *)
Definition newer_first (a b : Submission) : Prop :=
  dt_leb (created_at b) (created_at a) = true.

#[global] Instance newer_first_dec : RelDecision newer_first.
Proof. intros a b. unfold newer_first. apply _. Defined.

(** [select(Submission).order_by(Submission.created_at.desc())]: the rows
    of the table, newest first. (Rows of equal [created_at] come in the
    order the database chooses; here it is the one of the merge.) *)
Definition order_by_created_at_desc (subs : list Submission)
    : list Submission :=
  merge_sort newer_first subs.

(** [SubmissionRepository.list]: [.limit(safe_limit).offset(offset)] on
    the ordered rows. The offset is not negative on any path that reaches
    the query from [list_submissions]. *)
Definition repo_list (limit offset : Z) (subs : list Submission)
    : list Submission :=
  let safe_limit := Z.max 0 (Z.min limit 1000) in
  take (Z.to_nat safe_limit)
       (drop (Z.to_nat offset) (order_by_created_at_desc subs)).

(** [SubmissionService.list]; [SubmissionDTO.model_validate] copies the
    columns of each row. *)
Definition service_list (limit offset : Z) (subs : list Submission)
    : list Submission :=
  let safe_limit := Z.max 0 (Z.min limit 1000) in
  repo_list safe_limit offset subs.

(** The normalised [limit] and [page] of [list_submissions]. *)
Definition clamp_limit (limit : Z) : Z := Z.max 1 (Z.min limit 1000).
Definition clamp_page (page : Z) : Z := Z.max 1 page.

(** The largest offset the database driver accepts: the parameters of a
    query are signed 64-bit integers. *)
Definition int64_max : Z := 2 ^ 63 - 1.

(** [GET /submissions/]. Python computes the offset without bound; the
    driver raises [OverflowError] on an offset that does not fit 64 bits,
    nothing catches it and the response is 500. *)
Definition list_submissions (page limit : Z) (subs : list Submission)
    : http (list Submission) :=
  let page := clamp_page page in
  let limit := clamp_limit limit in
  let offset := (page - 1) * limit in
  if offset <=? int64_max then Ok (service_list limit offset subs)
  else Err 500.

(** ** Properties *)

Ltac dt_order :=
  unfold newer_first, dt_leb in *;
  repeat match goal with
  | H : _ = true |- _ =>
      rewrite ?orb_true_iff, ?andb_true_iff, ?Z.ltb_lt, ?Z.eqb_eq,
        ?Z.leb_le in H; revert H
  end;
  rewrite ?orb_true_iff, ?andb_true_iff, ?Z.ltb_lt, ?Z.eqb_eq, ?Z.leb_le;
  lia.

#[global] Instance newer_first_trans : Transitive newer_first.
Proof. intros a b c Hab Hbc. dt_order. Qed.

#[global] Instance newer_first_total : Total newer_first.
Proof. intros a b. dt_order. Qed.

Lemma ordered_sorted (subs : list Submission) :
  StronglySorted newer_first (order_by_created_at_desc subs).
Proof. apply StronglySorted_merge_sort; apply _. Qed.

Lemma ordered_perm (subs : list Submission) :
  order_by_created_at_desc subs ≡ₚ subs.
Proof. apply merge_sort_Permutation. Qed.

Lemma sorted_take_drop {A : Type} (R : relation A) (n k : nat) (l : list A) :
  StronglySorted R l → StronglySorted R (take n (drop k l)).
Proof.
  intros Hl.
  rewrite <- (take_drop k l) in Hl.
  apply StronglySorted_app_1_r in Hl.
  rewrite <- (take_drop n (drop k l)) in Hl.
  by apply StronglySorted_app_1_l in Hl.
Qed.

Lemma list_submissions_unfold (page limit : Z) (subs : list Submission) :
  (clamp_page page - 1) * clamp_limit limit ≤ int64_max →
  list_submissions page limit subs
  = Ok (take (Z.to_nat (clamp_limit limit))
             (drop (Z.to_nat ((clamp_page page - 1) * clamp_limit limit))
                   (order_by_created_at_desc subs))).
Proof.
  intros Hoff. unfold list_submissions.
  apply Z.leb_le in Hoff. rewrite Hoff.
  unfold service_list, repo_list, clamp_limit.
  do 3 f_equal. lia.
Qed.

Lemma list_submissions_overflow (page limit : Z) (subs : list Submission) :
  int64_max < (clamp_page page - 1) * clamp_limit limit →
  list_submissions page limit subs = Err 500.
Proof.
  intros Hoff. unfold list_submissions.
  apply Z.leb_gt in Hoff. by rewrite Hoff.
Qed.

Lemma dt_leb_antisym (a b : datetime) :
  dt_leb a b = true → dt_leb b a = true → a = b.
Proof.
  destruct a as [y1 m1 d1 t1], b as [y2 m2 d2 t2].
  unfold dt_leb. simpl.
  rewrite !orb_true_iff, !andb_true_iff, !orb_true_iff, !andb_true_iff,
    !orb_true_iff, !andb_true_iff, !Z.ltb_lt, !Z.eqb_eq, !Z.leb_le.
  intros H1 H2.
  assert (y1 = y2 ∧ m1 = m2 ∧ d1 = d2 ∧ t1 = t2) as (-> & -> & -> & ->)
    by lia.
  reflexivity.
Qed.

Lemma fmap_NoDup_inj {A B : Type} (f : A → B) (l : list A) (x y : A) :
  NoDup (f <$> l) → x ∈ l → y ∈ l → f x = f y → x = y.
Proof.
  induction l as [|a l IH]; intros Hnd Hx Hy Hf.
  - by apply elem_of_nil in Hx.
  - rewrite fmap_cons in Hnd. apply NoDup_cons in Hnd as [Ha Hnd].
    apply elem_of_cons in Hx as [->|Hx], Hy as [->|Hy]; [done| | |by apply IH].
    + exfalso. apply Ha. rewrite Hf. by apply list_elem_of_fmap_2.
    + exfalso. apply Ha. rewrite <- Hf. by apply list_elem_of_fmap_2.
Qed.

(** When no two rows have the same [created_at], there is one way to
    order them newest first. *)
Lemma ordered_unique (subs ordered : list Submission) :
  NoDup (created_at <$> subs) →
  ordered ≡ₚ subs → StronglySorted newer_first ordered →
  ordered = order_by_created_at_desc subs.
Proof.
  intros Hnd Hperm Hsorted.
  apply (StronglySorted_unique_strong newer_first);
    [|done|apply ordered_sorted|by rewrite ordered_perm].
  intros x1 x2 Hx1 Hx2 H12 H21.
  rewrite Hperm in Hx1. rewrite ordered_perm in Hx2.
  apply (fmap_NoDup_inj created_at subs); [done..|].
  by apply dt_leb_antisym.
Qed.

(** C5. For every [page] and [limit], with the limit in force
    [max(1, min(limit, 1000))], the page in force [max(1, page)] and the
    offset [(page - 1) * limit] of these: as long as the offset fits 64
    bits the response is the window of [limit] rows from that offset of
    the table ordered newest first (of the one such order when no two
    rows have the same [created_at], of one of them otherwise), hence at
    most [limit] and at most 1000 rows of the table, themselves newest
    first; beyond, the response is the error 500. *)
Theorem list_submissions_spec (page limit : Z) (subs : list Submission) :
  let limit' := Z.max 1 (Z.min limit 1000) in
  let page' := Z.max 1 page in
  let offset := (page' - 1) * limit' in
  (offset ≤ 2 ^ 63 - 1 →
   ∃ rows ordered,
     list_submissions page limit subs = Ok rows
     ∧ ordered ≡ₚ subs
     ∧ StronglySorted newer_first ordered
     ∧ rows = take (Z.to_nat limit') (drop (Z.to_nat offset) ordered)
     ∧ (NoDup (created_at <$> subs) →
        ∀ ordered', ordered' ≡ₚ subs → StronglySorted newer_first ordered' →
          rows = take (Z.to_nat limit') (drop (Z.to_nat offset) ordered'))
     ∧ (length rows ≤ 1000)%nat
     ∧ Z.of_nat (length rows) ≤ limit'
     ∧ StronglySorted newer_first rows
     ∧ rows ⊆ subs)
  ∧ (2 ^ 63 - 1 < offset → list_submissions page limit subs = Err 500).
Proof.
  intros limit' page' offset. split.
  - intros Hoff.
    exists (take (Z.to_nat limit')
                 (drop (Z.to_nat offset) (order_by_created_at_desc subs))),
           (order_by_created_at_desc subs).
    split; [by apply list_submissions_unfold|].
    split; [apply ordered_perm|]. split; [apply ordered_sorted|].
    split; [done|]. split; [|split; [|split; [|split]]].
    + intros Hnd ordered' Hperm Hsorted.
      by rewrite (ordered_unique subs ordered').
    + rewrite length_take. lia.
    + rewrite length_take. lia.
    + apply sorted_take_drop, ordered_sorted.
    + intros s Hs.
      apply (subseteq_take _ _ _) in Hs. apply (subseteq_drop _ _ _) in Hs.
      by rewrite ordered_perm in Hs.
  - intros Hoff. by apply list_submissions_overflow.
Qed.

Definition at_time (i y m d : Z) : Submission :=
  mkSubmission i "published" None None None None None None
               (mkDatetime y m d 0).

Lemma list_submissions_spec_witness :
  ∃ rows,
    list_submissions 0 5000
      [at_time 1 2024 1 5; at_time 2 2024 3 1; at_time 3 2023 12 31]
    = Ok rows
    ∧ rows = take (Z.to_nat 1000)
               (drop (Z.to_nat 0)
                  [at_time 2 2024 3 1; at_time 1 2024 1 5;
                   at_time 3 2023 12 31])
    ∧ (length rows ≤ 1000)%nat.
Proof.
  destruct (list_submissions_spec 0 5000
              [at_time 1 2024 1 5; at_time 2 2024 3 1; at_time 3 2023 12 31])
    as [H _].
  destruct (H ltac:(simpl; lia))
    as (rows & ordered & Hrows & _ & _ & _ & Huniq & Hlen & _).
  exists rows. split; [exact Hrows|]. split; [|exact Hlen].
  apply Huniq.
  - repeat constructor; rewrite ?not_elem_of_cons; rewrite ?elem_of_nil;
      intuition discriminate.
  - apply Permutation_sym, perm_swap.
  - repeat constructor.
Defined.

(** Three rows, [limit=5000], [page=0]: both parameters are clamped and
    the rows come newest first. *)
Example list_submissions_limit_5000 :
  clamp_limit 5000 = 1000
  ∧ list_submissions 0 5000
      [at_time 1 2024 1 5; at_time 2 2024 3 1; at_time 3 2023 12 31]
    = Ok [at_time 2 2024 3 1; at_time 1 2024 1 5; at_time 3 2023 12 31].
Proof. split; reflexivity. Qed.

(** The second page of size 2 of the same table. *)
Example list_submissions_page_2 :
  list_submissions 2 2
    [at_time 1 2024 1 5; at_time 2 2024 3 1; at_time 3 2023 12 31]
  = Ok [at_time 3 2023 12 31].
Proof. reflexivity. Qed.

(** The offset of page 9223372036854777 of size 1000 does not fit 64
    bits. *)
Example list_submissions_page_too_far :
  list_submissions 9223372036854776 1000 [at_time 1 2024 1 5] = Ok []
  ∧ list_submissions 9223372036854777 1000 [at_time 1 2024 1 5] = Err 500.
Proof. split; reflexivity. Qed.

(** Two rows of the same [created_at] can come in either order: the
    first page of one order and the second page of the other show the
    same row. *)
Example ties_overlap :
  let a := at_time 1 2024 1 5 in
  let b := at_time 2 2024 1 5 in
  StronglySorted newer_first [a; b] ∧ StronglySorted newer_first [b; a]
  ∧ take 1 (drop 0 [a; b]) = take 1 (drop 1 [b; a]).
Proof. repeat split; repeat constructor. Qed.

End Listing.

(* ===================================================================== *)
(** * backend/routers/comments.py, backend/services/comment.py,
      app/db/repositories/comments.py *)
(* ===================================================================== *)

Module Comments.
Import Entity.

(** Row of the table [comment]. *)
Record Comment : Type := mkComment {
  c_id : Z;
  c_submission_id : Z;
  c_user_id : option Z;
  c_body : string;
  c_image_url : option string;
  c_status : string;
  c_rejection_reason : option string;
  c_created_at : datetime
}.

(** The table and the next value of its primary-key sequence, and the
    files under [files/comments]. *)
Record db : Type := mkDb {
  comments : list Comment;
  next_id : Z;
  files : list (string * string)
}.

(** The primary key: the sequence is ahead of every key in use. *)
Definition pk_ok (d : db) : Prop :=
  Forall (λ c, c_id c < next_id d) (comments d).

(** The current user as the endpoints see it: [user.id] and the names of
    [user.roles]. *)
Record UserDTO : Type := mkUser {
  u_id : Z;
  u_roles : list string
}.

(** An uploaded file. *)
Record UploadFile : Type := mkUpload {
  content_type : option string;
  filename : option string;
  content : string
}.

(** What becomes of [os.makedirs] and
    [with open(path, "wb") as out: out.write(content)]: the file is
    written; the directory cannot be made or the file not opened, and
    there is no file; or the file is opened and the write fails, which
    leaves the file with what was written of it. *)
Inductive write_result : Type :=
| written
| open_failed
| write_failed (partial : string).

(** What a request meets outside the table [comment]: the clock of the
    server default [now()], [uuid.uuid4().hex], [str(request.base_url)]
    without its trailing slashes, what becomes of the write of the
    upload, the extension [os.path.splitext] finds in a file name, and
    whether the table [submission] has a row of a given id, which the
    foreign key of [comment.submission_id] asks for (a database that
    does not enforce foreign keys answers yes). *)
Record env : Type := mkEnv {
  now : datetime;
  uuid_hex : string;
  base_url : string;
  write_file : write_result;
  splitext_ext : string → string;
  submission_exists : Z → bool
}.

(** [c.lower()] on one character. *)
Definition lower_ascii (c : ascii) : ascii :=
  let n := nat_of_ascii c in
  if ((65 <=? n) && (n <=? 90))%nat then ascii_of_nat (n + 32) else c.

(** [s.lower()] *)
Fixpoint lower (s : string) : string :=
  match s with
  | EmptyString => EmptyString
  | String c s' => String (lower_ascii c) (lower s')
  end.

(** [any((r.name or '').lower() == 'admin' for r in user.roles)] *)
Definition is_admin (user : UserDTO) : bool :=
  existsb (λ name, String.eqb (lower name) "admin") (u_roles user).

(** The extension chosen for a content type when the file name has none. *)
Definition ext_of_content_type (ct : string) : string :=
  if String.eqb ct "image/jpeg" then ".jpg"
  else if String.eqb ct "image/png" then ".png"
  else if String.eqb ct "image/gif" then ".gif"
  else if String.eqb ct "image/webp" then ".webp"
  else if String.eqb ct "image/svg+xml" then ".svg"
  else ".img".

(** [CommentRepository.get_by_id] *)
Definition get_by_id (d : db) (id : Z) : option Comment :=
  List.find (λ c, c_id c =? id) (comments d).

(** [CommentRepository.create] followed by the flush: the row gets the
    next key and the server default of [created_at]. *)
Definition repo_create (e : env) (d : db) (submission_id : Z)
    (user_id : option Z) (body : string) (image_url : option string)
    (status : string) : Comment * db :=
  let item := mkComment (next_id d) submission_id user_id body image_url
                        status None (now e) in
  (item, mkDb (comments d ++ [item]) (next_id d + 1) (files d)).

(** The optional upload of [create_comment]: the URL of the stored image,
    400 for a content type that is missing or not [image/...], 500 when
    the file cannot be written; a write that fails half-way leaves its
    file behind. *)
Definition save_image (e : env) (d : db) (user : UserDTO)
    (image : option UploadFile) : http (option string) * db :=
  match image with
  | None => (Ok None, d)
  | Some img =>
      match content_type img with
      | None => (Err 400, d)
      | Some ct =>
          if String.eqb ct "" || negb (String.prefix "image/" ct)
          then (Err 400, d)
          else
            let ext0 := splitext_ext e (default ""%string (filename img)) in
            let ext := if String.eqb ext0 "" then ext_of_content_type ct
                       else ext0 in
            let fname := "c_" +:+ Fmt.str (u_id user) +:+ "_"
                         +:+ uuid_hex e +:+ ext in
            let path := "files/comments/" +:+ fname in
            match write_file e with
            | written =>
                (Ok (Some (base_url e +:+ "/files/comments/" +:+ fname)),
                 mkDb (comments d) (next_id d)
                      (files d ++ [(path, content img)]))
            | open_failed => (Err 500, d)
            | write_failed partial =>
                (Err 500,
                 mkDb (comments d) (next_id d)
                      (files d ++ [(path, partial)]))
            end
      end
  end.

(** [POST /comments/]. The image is written before the row is inserted.
    An INSERT that the foreign key refuses raises [IntegrityError] at the
    flush; nothing catches it, the response is 500, the transaction is
    not committed, and the image written before stays where it is. (What
    the sequence of the primary key is after a refused INSERT is the
    database's affair; it is left as it was here.) *)
Definition create_comment (e : env) (d : db) (submission_id : Z)
    (body : string) (image : option UploadFile) (user : UserDTO)
    : http Comment * db :=
  if is_admin user then (Err 403, d)
  else
    match save_image e d user image with
    | (Err code, d1) => (Err code, d1)
    | (Ok image_url, d1) =>
        if submission_exists e submission_id
        then
          let '(item, d2) :=
            repo_create e d1 submission_id (Some (u_id user)) body image_url
                        "pending" in
          match get_by_id d2 (c_id item) with
          | Some item' => (Ok item', d2)
          | None => (Err 500, d2)
          end
        else (Err 500, d1)
    end.

(** [a] may stand before [b] under [ORDER BY created_at DESC]. *)
Definition newer_first (a b : Comment) : Prop :=
  Listing.dt_leb (c_created_at b) (c_created_at a) = true.

#[global] Instance newer_first_dec : RelDecision newer_first.
Proof. intros a b. unfold newer_first. apply _. Defined.

(** [CommentRepository.list_by_submission]: [if status:] keeps the second
    filter out for [None] and for the empty string. *)
Definition list_by_submission (d : db) (submission_id : Z)
    (status : option string) : list Comment :=
  let rows := List.filter (λ c, c_submission_id c =? submission_id)
                          (comments d) in
  let rows :=
    match status with
    | Some st => if String.eqb st "" then rows
                 else List.filter (λ c, String.eqb (c_status c) st) rows
    | None => rows
    end in
  merge_sort newer_first rows.

(** [CommentRepository.list_by_user] *)
Definition list_by_user (d : db) (user_id : Z) : list Comment :=
  merge_sort newer_first
    (List.filter (λ c, bool_decide (c_user_id c = Some user_id))
                 (comments d)).

(** [CommentRepository.list_admin] *)
Definition list_admin (d : db) (status : option string) : list Comment :=
  let rows := comments d in
  let rows :=
    match status with
    | Some st => if String.eqb st "" then rows
                 else List.filter (λ c, String.eqb (c_status c) st) rows
    | None => rows
    end in
  merge_sort newer_first rows.

(** [CommentService.list_by_submission_public], which [GET /comments/]
    returns. *)
Definition list_by_submission_public (d : db) (submission_id : Z)
    : list Comment :=
  list_by_submission d submission_id (Some "approved"%string).


(** The assignment to the attributes of the loaded row, written back by
    the flush. *)
Definition set_status (id : Z) (status : string) (reason : option string)
    (t : list Comment) : list Comment :=
  (λ c, if c_id c =? id
        then mkComment (c_id c) (c_submission_id c) (c_user_id c) (c_body c)
                       (c_image_url c) status reason (c_created_at c)
        else c) <$> t.

(** [POST /comments/{comment_id}/approve] *)
Definition approve_comment (d : db) (comment_id : Z) : http Comment * db :=
  match get_by_id d comment_id with
  | None => (Err 404, d)
  | Some item =>
      let item' := mkComment (c_id item) (c_submission_id item)
                     (c_user_id item) (c_body item) (c_image_url item)
                     "approved" None (c_created_at item) in
      (Ok item',
       mkDb (set_status comment_id "approved" None (comments d))
            (next_id d) (files d))
  end.

(** [POST /comments/{comment_id}/reject] *)
Definition reject_comment (d : db) (comment_id : Z) (reason : option string)
    : http Comment * db :=
  match get_by_id d comment_id with
  | None => (Err 404, d)
  | Some item =>
      let item' := mkComment (c_id item) (c_submission_id item)
                     (c_user_id item) (c_body item) (c_image_url item)
                     "rejected" reason (c_created_at item) in
      (Ok item',
       mkDb (set_status comment_id "rejected" reason (comments d))
            (next_id d) (files d))
  end.

(** ** Properties *)

Lemma save_image_comments e d user image r d1 :
  save_image e d user image = (r, d1) →
  comments d1 = comments d ∧ next_id d1 = next_id d.
Proof.
  unfold save_image. intros H.
  repeat match type of H with
  | context [match ?x with _ => _ end] => destruct x
  end; by injection H as <- <-.
Qed.



Lemma list_by_submission_elem d sid st c :
  c ∈ list_by_submission d sid (Some st) → st ≠ ""%string →
  c ∈ comments d ∧ c_submission_id c = sid ∧ c_status c = st.
Proof.
  unfold list_by_submission. rewrite merge_sort_Permutation.
  intros Hc Hst. apply String.eqb_neq in Hst. rewrite Hst in Hc.
  apply list_elem_of_In in Hc.
  apply List.filter_In in Hc as [Hc E1].
  apply List.filter_In in Hc as [Hc E2].
  apply String.eqb_eq in E1. apply Z.eqb_eq in E2.
  split; [by apply list_elem_of_In|done].
Qed.

Lemma list_by_submission_public_elem d sid c :
  c ∈ list_by_submission_public d sid ↔
  c ∈ comments d ∧ c_submission_id c = sid ∧ c_status c = "approved"%string.
Proof.
  split.
  - intros H. by apply list_by_submission_elem in H.
  - intros (Hin & Hs & Hst).
    unfold list_by_submission_public, list_by_submission.
    rewrite merge_sort_Permutation. simpl.
    apply list_elem_of_In, List.filter_In. split.
    + apply List.filter_In. split; [by apply list_elem_of_In|].
      by apply Z.eqb_eq.
    + by apply String.eqb_eq.
Qed.


Definition env0 : env :=
  mkEnv (mkDatetime 2024 6 2 0) "0123abcd" "http://host" written (λ _, "")
        (λ _, true).


End Comments.

(* ===================================================================== *)
(** * [SubmissionRepository.update], [SubmissionService.update] *)
(* ===================================================================== *)

Module Update.
Import Entity.

(** A value of an attribute or of a keyword argument. *)
Inductive value : Type :=
| VNone
| VStr (s : string)
| VInt (z : Z)
| VFloat (q : Q)
| VDate (d : datetime)
| VList (l : list string).

(** [v is not None] *)
Definition is_not_none (v : value) : bool :=
  match v with VNone => false | _ => true end.

(** A loaded [Submission] seen through [hasattr] and [setattr]: the
    attributes it has, each with its value ([VNone] for a null column).
    The table maps a primary key to its row. *)
Abbreviation obj := (gmap string value).
Abbreviation table := (gmap Z (gmap string value)).

(** [hasattr(sub, k)] *)
Definition hasattr (sub : obj) (k : string) : bool :=
  bool_decide (is_Some (sub !! k)).

(** The body of the loop of [update]: one keyword argument. *)
Definition update_step (sub : obj) (kv : string * value) : obj :=
  let '(k, v) := kv in
  if hasattr sub k && is_not_none v then <[k := v]> sub else sub.

(** [for k, v in kwargs.items(): ...] *)
Definition update_attrs (sub : obj) (kwargs : list (string * value)) : obj :=
  fold_left update_step kwargs sub.

(** [SubmissionRepository.get_by_id] *)
Definition get_by_id (t : table) (id : Z) : option obj := t !! id.

(** [SubmissionRepository.update]: [None] for an unknown id; else the
    loaded row is changed in place and returned. *)
Definition update (t : table) (id : Z) (kwargs : list (string * value))
    : option obj * table :=
  match get_by_id t id with
  | None => (None, t)
  | Some sub =>
      let sub' := update_attrs sub kwargs in
      (Some sub', <[id := sub']> t)
  end.

(** [SubmissionUpdateDTO]: every field is optional and defaults to
    [None]. *)
Record SubmissionUpdateDTO : Type := mkUpdateDTO {
  title : option string;
  full_name : option string;
  dob : option datetime;
  gender : option string;
  race : option string;
  height : option Q;
  weight : option Q;
  province : option string;
  description : option string;
  status : option string;
  last_seen_address : option string;
  last_seen_place_id : option string;
  last_seen_lat : option Q;
  last_seen_lng : option Q;
  images : option (list string)
}.

Definition opt {A : Type} (f : A → value) (o : option A) : value :=
  match o with Some a => f a | None => VNone end.

(** The keyword arguments [SubmissionService.update] passes on, in the
    order it writes them. *)
Definition kwargs_of (data : SubmissionUpdateDTO) : list (string * value) :=
  [("title", opt VStr (title data));
   ("full_name", opt VStr (full_name data));
   ("dob", opt VDate (dob data));
   ("gender", opt VStr (gender data));
   ("race", opt VStr (race data));
   ("height", opt VFloat (height data));
   ("weight", opt VFloat (weight data));
   ("province", opt VStr (province data));
   ("description", opt VStr (description data));
   ("status", opt VStr (status data));
   ("last_seen_address", opt VStr (last_seen_address data));
   ("last_seen_place_id", opt VStr (last_seen_place_id data));
   ("last_seen_lat", opt VFloat (last_seen_lat data));
   ("last_seen_lng", opt VFloat (last_seen_lng data));
   ("images", opt VList (images data))]%string.

(** [SubmissionService.update] *)
Definition service_update (t : table) (id : Z) (data : SubmissionUpdateDTO)
    : option obj * table :=
  update t id (kwargs_of data).

(** ** Properties *)

Lemma update_step_lookup sub k v k' :
  update_step sub (k, v) !! k'
  = if bool_decide (k = k') && hasattr sub k && is_not_none v
    then Some v else sub !! k'.
Proof.
  unfold update_step.
  destruct (hasattr sub k && is_not_none v) eqn:E.
  - case_bool_decide as Hk; simpl.
    + subst. rewrite E. apply lookup_insert_eq.
    + by rewrite lookup_insert_ne.
  - case_bool_decide; simpl; [|done]. by rewrite E.
Qed.

Lemma update_step_hasattr sub kv k :
  hasattr (update_step sub kv) k = hasattr sub k.
Proof.
  destruct kv as [k0 v]. unfold hasattr.
  apply bool_decide_ext. rewrite update_step_lookup.
  destruct (bool_decide (k0 = k) && hasattr sub k0 && is_not_none v) eqn:E;
    [|done].
  apply andb_true_iff in E as [E _]. apply andb_true_iff in E as [E1 E2].
  apply bool_decide_eq_true in E1 as ->.
  apply bool_decide_eq_true in E2. split; [done|eauto].
Qed.

(** The attributes an update leaves alone: those no keyword argument
    names, and those named only with [None]. *)
Lemma update_attrs_skip sub kwargs k :
  (∀ v, (k, v) ∈ kwargs → v = VNone) →
  update_attrs sub kwargs !! k = sub !! k.
Proof.
  unfold update_attrs. revert sub.
  induction kwargs as [|[k0 v0] kwargs IH]; intros sub Hk; cbn [fold_left];
    [done|].
  rewrite IH by (intros v Hv; apply Hk; by right).
  rewrite update_step_lookup.
  destruct (bool_decide (k0 = k)) eqn:E; [|done].
  apply bool_decide_eq_true in E as ->.
  rewrite (Hk v0) by left. simpl. by rewrite andb_false_r.
Qed.

(** An update never makes an attribute null, and never adds or removes
    one. *)
Lemma update_attrs_not_none sub kwargs k v :
  sub !! k = Some v → v ≠ VNone →
  ∃ v', update_attrs sub kwargs !! k = Some v' ∧ v' ≠ VNone.
Proof.
  unfold update_attrs. revert sub v.
  induction kwargs as [|[k0 v0] kwargs IH]; intros sub v Hk Hv;
    cbn [fold_left]; [eauto|].
  pose proof (update_step_lookup sub k0 v0 k) as Hs.
  destruct (bool_decide (k0 = k) && hasattr sub k0 && is_not_none v0) eqn:E.
  - apply (IH _ v0 Hs).
    apply andb_true_iff in E as [_ E]. by destruct v0.
  - rewrite Hk in Hs. by apply (IH _ v Hs).
Qed.

Lemma update_attrs_dom sub kwargs :
  dom (update_attrs sub kwargs) = dom sub.
Proof.
  unfold update_attrs. revert sub.
  induction kwargs as [|[k v] kwargs IH]; intros sub; cbn [fold_left];
    [done|].
  rewrite IH. unfold update_step.
  destruct (hasattr sub k && is_not_none v) eqn:E; [|done].
  apply andb_true_iff in E as [E _]. apply bool_decide_eq_true in E.
  by apply dom_insert_lookup_L.
Qed.

(** C9. [update] on an existing submission returns the changed row and
    stores it under the same key. Every attribute that the keyword
    arguments do not name, or name with [None] only, keeps its value; no
    attribute that held a value holds [None] afterwards; the row has the
    same attributes as before. *)
Theorem update_skips_none (t : gmap Z (gmap string value)) (id : Z)
    (kwargs : list (string * value)) (sub : gmap string value) :
  get_by_id t id = Some sub →
  ∃ sub' : gmap string value,
    update t id kwargs = (Some sub', <[id := sub']> t)
    ∧ (∀ k, (∀ v, (k, v) ∈ kwargs → v = VNone) → sub' !! k = sub !! k)
    ∧ (∀ k v, sub !! k = Some v → v ≠ VNone →
              ∃ v', sub' !! k = Some v' ∧ v' ≠ VNone)
    ∧ dom sub' = dom sub.
Proof.
  intros Hsub. exists (update_attrs sub kwargs).
  unfold update. rewrite Hsub.
  split; [done|]. split; [|split].
  - intros k. apply update_attrs_skip.
  - intros k v. apply update_attrs_not_none.
  - apply update_attrs_dom.
Qed.

Definition row0 : gmap string value :=
  {[ "title" := VStr "Missing"; "status" := VStr "pending";
     "province" := VNone ]}%string.

Lemma update_skips_none_witness :
  ∃ sub' : gmap string value,
    update {[ 1 := row0 ]} 1
           [("title", VNone); ("status", VStr "published")]%string
    = (Some sub', <[1 := sub']> {[ 1 := row0 ]})
    ∧ (∀ k, (∀ v, (k, v) ∈ [("title", VNone); ("status", VStr "published")]
                  %string → v = VNone) → sub' !! k = row0 !! k)
    ∧ (∀ k v, row0 !! k = Some v → v ≠ VNone →
              ∃ v', sub' !! k = Some v' ∧ v' ≠ VNone)
    ∧ dom sub' = dom row0.
Proof.
  apply (update_skips_none {[ 1 := row0 ]} 1
           [("title", VNone); ("status", VStr "published")]%string row0).
  reflexivity.
Defined.

(** [title=None] leaves the title, [status="published"] replaces the
    status, and a keyword that is not an attribute is ignored. *)
Example update_example :
  update_attrs row0
    [("title", VNone); ("status", VStr "published"); ("colour", VStr "red")]
    %string
  = {[ "title" := VStr "Missing"; "status" := VStr "published";
       "province" := VNone ]}%string.
Proof. vm_compute. reflexivity. Qed.

(** [update] on an unknown id returns [None] and changes nothing. *)
Lemma update_missing (t : gmap Z (gmap string value)) id kwargs :
  get_by_id t id = None → update t id kwargs = (None, t).
Proof. intros H. unfold update. by rewrite H. Qed.

End Update.

(* ===================================================================== *)
(** * Public submission endpoints: [get_submission], [age_progression];
      services/age_progression.py *)
(* ===================================================================== *)

Module Submissions.
Import Entity.

(** [SubmissionRepository.get_by_id] *)
Definition get_by_id (t : list Submission) (id : Z) : option Submission :=
  List.find (λ s, sub_id s =? id) t.

(** [SubmissionService.get]; [SubmissionDTO.model_validate] copies the
    columns of the row. *)
Definition service_get (t : list Submission) (id : Z) : option Submission :=
  get_by_id t id.

(** [GET /submissions/{submission_id}] *)
Definition get_submission (t : list Submission) (submission_id : Z)
    : http Submission :=
  match service_get t submission_id with
  | None => Err 404
  | Some item => if is_public (status item) then Ok item else Err 404
  end.

(** ** Properties *)

Lemma is_public_spec st :
  is_public st = true ↔
  st = "published"%string ∨ st = "found_alive"%string
  ∨ st = "found_dead"%string.
Proof.
  unfold is_public, public_status. simpl.
  rewrite !orb_true_iff, !String.eqb_eq. intuition discriminate.
Qed.

(** C10. [get_submission] answers 404 exactly when there is no submission
    of that id or the submission is there with a status other than
    published, found_alive and found_dead; in the second case the answer is
    the one an absent id gets. A submission with one of the three statuses
    is returned. *)
Theorem get_submission_404 (t : list Submission) (id : Z) :
  (get_submission t id = Err 404 ↔
     service_get t id = None
     ∨ ∃ item, service_get t id = Some item
               ∧ status item ≠ "published"%string
               ∧ status item ≠ "found_alive"%string
               ∧ status item ≠ "found_dead"%string)
  ∧ (∀ item, service_get t id = Some item →
       status item = "pending"%string ∨ status item = "rejected"%string →
       get_submission t id = get_submission [] id)
  ∧ (∀ item, service_get t id = Some item →
       is_public (status item) = true → get_submission t id = Ok item).
Proof.
  unfold get_submission. split; [|split].
  - destruct (service_get t id) as [item|]; [|by split; auto].
    destruct (is_public (status item)) eqn:E.
    + split; [discriminate|]. intros [|(item' & [= <-] & H1 & H2 & H3)];
        [discriminate|].
      apply is_public_spec in E. tauto.
    + split; [|done]. intros _. right. exists item. split; [done|].
      repeat split; intros Hs; rewrite Hs in E; discriminate.
  - intros item -> [Hs|Hs]; by rewrite Hs.
  - by intros item -> ->.
Qed.

End Submissions.

Module AgeProgression.
Import Entity.

(** What [client.predict] returns: bytes, a string (a path or a URL), a
    list or tuple, or something else. *)
#[warnings="-register-all"]
Inductive result : Type :=
| RBytes (b : string)
| RStr (s : string)
| RSeq (l : list result)
| ROther.

(** The world outside the function: the HTTP download
    ([None]: the request raises), the face-aging Spaces ([Client(space)]
    succeeding or not, the two forms of [predict], [None]: the call
    raises), whether a file can be written, the image enhancement (which
    returns its input when it cannot process it) and
    [urllib.parse.quote]. *)
Record env : Type := mkEnv {
  HF_SPACES : list string;
  download : string → option string;
  client_ok : string → bool;
  predict2 : string → string → string → option result;
  predict1 : string → string → option result;
  can_write : string → bool;
  enhance : string → string;
  quote : string → string
}.

(** The files on disk: path to content. *)
Abbreviation fs := (gmap string string).

(** [s.rstrip("/")] *)
Fixpoint rstrip_slash (s : string) : string :=
  match s with
  | EmptyString => EmptyString
  | String c s' =>
      let r := rstrip_slash s' in
      if String.eqb r "" && Ascii.eqb c "/" then EmptyString
      else String c r
  end.

(** The decade bucket of the cache key. *)
Definition age_bucket (target_age : option Z) : option string :=
  match target_age with
  | None => None
  | Some a =>
      Some (if a <? 20 then "<20" else if a <? 30 then "20s"
            else if a <? 40 then "30s" else if a <? 50 then "40s"
            else if a <? 60 then "50s" else "60+")
  end.

(** [years = max(1, int(years or 1))] *)
Definition norm_years (years : Z) : Z :=
  Z.max 1 (if years =? 0 then 1 else years).

Definition cache_filename (submission_id years : Z) (target_age : option Z)
    : string :=
  let cache_suffix := match age_bucket target_age with
                      | Some b => "_" +:+ b
                      | None => ""
                      end in
  "ap_" +:+ Fmt.str submission_id +:+ "_" +:+ Fmt.str years
  +:+ cache_suffix +:+ ".jpg".

(** [os.path.join(CACHE_DIR, cache_filename)] *)
Definition cache_path_of (fname : string) : string :=
  "files/age_progression/" +:+ fname.

Definition public_url (e : env) (base_url fname : string) : string :=
  base_url +:+ "/files/age_progression/" +:+ quote e fname.

(** The source URL, made absolute when it is a stored relative path. *)
Definition resolve_src_url (source_image_url base_url : string) : string :=
  let src := source_image_url in
  if negb (String.eqb src "") && negb (String.prefix "http://" src)
     && negb (String.prefix "https://" src)
  then
    let base := rstrip_slash base_url in
    if String.prefix "/" src then base +:+ src else base +:+ "/" +:+ src
  else src.

(** The age group label passed to a Space. *)
Definition age_group (target_age : option Z) (years : Z) : string :=
  match target_age with
  | Some a =>
      if a <? 25 then "20-30" else if a <? 35 then "30-40"
      else if a <? 45 then "40-50" else if a <? 60 then "50-60"
      else "60-70"
  | None =>
      if 15 <=? years then "50-60" else if 10 <=? years then "40-50"
      else "30-40"
  end.

(** The output bytes read out of the result of [predict]; [None] stands
    for every way this raises: an empty list, a failed read or download,
    no bytes at all, empty bytes. *)
Definition out_bytes_of (e : env) (files : fs) (r : result)
    : option string :=
  let unwrapped :=
    match r with
    | RSeq [] => None
    | RSeq (r0 :: _) => Some r0
    | _ => Some r
    end in
  match unwrapped with
  | None => None
  | Some r1 =>
      let out_bytes :=
        match r1 with
        | RBytes b => Some b
        | RStr s =>
            match files !! s with
            | Some c => Some c
            | None => download e s
            end
        | _ => None
        end in
      match out_bytes with
      | Some b => if String.eqb b "" then None else Some b
      | None => None
      end
  end.

(** One turn of the loop over [HF_SPACES]: the enhanced output when the
    Space gave one and the cache file could be written, [None] when
    anything raised. *)
Definition try_space (e : env) (files : fs) (space src_bytes group : string)
    (cache_path : string) : option string :=
  if client_ok e space then
    let r := match predict2 e space src_bytes group with
             | Some r => Some r
             | None => predict1 e space src_bytes
             end in
    match r with
    | None => None
    | Some r =>
        match out_bytes_of e files r with
        | None => None
        | Some out_bytes =>
            if can_write e cache_path then Some (enhance e out_bytes)
            else None
        end
    end
  else None.

(** The loop: the content written by the first Space that succeeds. *)
Fixpoint try_spaces (e : env) (files : fs) (spaces : list string)
    (src_bytes group cache_path : string) : option string :=
  match spaces with
  | [] => None
  | space :: rest =>
      match try_space e files space src_bytes group cache_path with
      | Some enhanced => Some enhanced
      | None => try_spaces e files rest src_bytes group cache_path
      end
  end.

(** [generate_age_progression]: the public URL of the cached image, or
    [None]. *)
Definition generate_age_progression (e : env) (files : fs)
    (submission_id : Z) (source_image_url : string) (years : Z)
    (base_url : string) (target_age : option Z) : option string * fs :=
  let years := norm_years years in
  let fname := cache_filename submission_id years target_age in
  let cache_path := cache_path_of fname in
  match files !! cache_path with
  | Some _ => (Some (public_url e base_url fname), files)
  | None =>
      let resolved_src_url := resolve_src_url source_image_url base_url in
      match download e resolved_src_url with
      | None => (None, files)
      | Some src_bytes =>
          let group := age_group target_age years in
          match try_spaces e files (HF_SPACES e) src_bytes group cache_path
          with
          | Some enhanced =>
              (Some (public_url e base_url fname),
               <[cache_path := enhanced]> files)
          | None =>
              if negb (String.eqb src_bytes "") && can_write e cache_path
              then (Some (public_url e base_url fname),
                    <[cache_path := enhance e src_bytes]> files)
              else (None, files)
          end
      end
  end.

(** [(m1, d1) < (m2, d2)] as the integer Python subtracts. *)
Definition before_in_year (a b : datetime) : Z :=
  if (month a <? month b) || ((month a =? month b) && (day a <? day b))
  then 1 else 0.

(** [GET /submissions/{submission_id}/age-progression]. [base_url] is
    [str(request.base_url)]; [now] is [datetime.utcnow()]. The [years]
    parameter of the query is overwritten, since [created_at] is always
    there. *)
Definition age_progression (e : env) (files : fs) (t : list Submission)
    (now : datetime) (request_base_url : string) (submission_id : Z)
    : http string * fs :=
  match Submissions.service_get t submission_id with
  | None => (Err 404, files)
  | Some item =>
      if negb (is_public (status item)) then (Err 404, files)
      else
        match images item with
        | None | Some [] => (Err 400, files)
        | Some (source_url :: _) =>
            let base_url := rstrip_slash request_base_url in
            let created := created_at item in
            let years_since_missing :=
              Z.max 0 (year now - year created - before_in_year now created)
            in
            let target_age :=
              match dob item with
              | None => None
              | Some dob_dt =>
                  let source_age :=
                    year created - year dob_dt
                    - before_in_year created dob_dt in
                  Some (Z.max 0 (source_age + years_since_missing))
              end in
            let '(url, files') :=
              generate_age_progression e files submission_id source_url
                (if years_since_missing =? 0 then 1 else years_since_missing)
                base_url target_age in
            match url with
            | Some u => if String.eqb u "" then (Err 502, files')
                        else (Ok u, files')
            | None => (Err 502, files')
            end
        end
  end.


(** ** Properties *)



Lemma generate_after_spaces_fail (e : env) (files : gmap string string)
    (submission_id : Z) (source_image_url : string) (years : Z)
    (base_url : string) (target_age : option Z) (src_bytes : string) :
  let fname := cache_filename submission_id (norm_years years) target_age in
  files !! cache_path_of fname = None →
  download e (resolve_src_url source_image_url base_url) = Some src_bytes →
  try_spaces e files (HF_SPACES e) src_bytes
    (age_group target_age (norm_years years)) (cache_path_of fname) = None →
  generate_age_progression e files submission_id source_image_url years
    base_url target_age
  = if negb (String.eqb src_bytes "") && can_write e (cache_path_of fname)
    then (Some (public_url e base_url fname),
          <[cache_path_of fname := enhance e src_bytes]> files)
    else (None, files).
Proof.
  intros fname Hmiss Hdl Hspaces. unfold generate_age_progression.
  fold fname. by rewrite Hmiss, Hdl, Hspaces.
Qed.



(** Every Space is down; the download answers [body] for every URL. *)
Definition spaces_down (body : string) (writable : bool) : env :=
  mkEnv ["akhaliq/Photo-to-Older"; "akhaliq/Face-Aging"]
        (λ _, Some body) (λ _, false) (λ _ _ _, None) (λ _ _, None)
        (λ _, writable) (λ b, "enhanced:" +:+ b) (λ s, s).



(** The same with an image that is there and a cache file that cannot be
    written. *)
Lemma unwritable_cache_gives_none :
  generate_age_progression (spaces_down "JPEG" false) ∅ 7
    "/files/submissions/a.jpg" 3 "http://host" None
  = (None, ∅).
Proof.
  apply (generate_after_spaces_fail (spaces_down "JPEG" false) ∅ 7
           "/files/submissions/a.jpg" 3 "http://host" None "JPEG").
  - apply lookup_empty.
  - reflexivity.
  - reflexivity.
Qed.

End AgeProgression.

(* ===================================================================== *)
(** * Further properties of the cache *)
(* ===================================================================== *)

Module CacheProps.
Import Cache.

(** The cache holds no entry for a service that is yet to be created. *)
Definition fresh_from {V : Type} (next : nat) (st : state (V:=V)) : Prop :=
  ∀ i, (next ≤ i)%nat → data st !! summarize_key i = None.

Lemma summarize_key_inj i j : summarize_key i = summarize_key j → i = j.
Proof. by intros [= ->]. Qed.

(** X1. [TTLCache]: a value that was [set] is what [get] returns for the
    same key up to and including the instant of expiry, and that [get]
    leaves the store as it is. *)
Theorem get_after_set {V : Type} (d : gmap key (Q * option V)) (k : key)
    (v : option V) (ttl_seconds : Z) (now t : Q) :
  Qle t (Qplus now (inject_Z ttl_seconds)) →
  get (set d k v ttl_seconds now) k t = (v, set d k v ttl_seconds now).
Proof.
  intros Hle. unfold get, set. rewrite lookup_insert_eq.
  apply Qle_bool_iff in Hle. by rewrite Hle.
Qed.

Lemma get_after_set_witness :
  get (set (∅ : gmap key (Q * option nat)) (summarize_key 0) (Some 5%nat)
           60 100%Q) (summarize_key 0) 160%Q
  = (Some 5%nat, set ∅ (summarize_key 0) (Some 5%nat) 60 100%Q).
Proof.
  apply get_after_set. vm_compute. discriminate.
Defined.

(** X2. [TTLCache.get] on an entry whose time is over returns [None] and
    deletes the entry, so that no later [get], whatever its clock reads,
    finds it; the other entries stay. *)
Theorem get_expired_deletes {V : Type} (d : gmap key (Q * option V))
    (k : key) (e : Q) (v : option V) (t : Q) :
  d !! k = Some (e, v) → Qlt e t →
  get d k t = (None, delete k d)
  ∧ (∀ t', get (delete k d) k t' = (None, delete k d))
  ∧ (∀ k', k' ≠ k → delete k d !! k' = d !! k').
Proof.
  intros Hk Hlt. split; [|split].
  - unfold get. rewrite Hk.
    destruct (Qle_bool t e) eqn:E; [|done].
    apply Qle_bool_iff in E. exfalso. by apply (Qlt_not_le e t).
  - intros t'. unfold get. by rewrite lookup_delete_eq.
  - intros k' Hne. by apply lookup_delete_ne.
Qed.

Lemma get_expired_deletes_witness :
  let d : gmap key (Q * option nat) :=
    {[ summarize_key 0 := (60%Q, Some 5%nat) ]} in
  get d (summarize_key 0) 61%Q = (None, delete (summarize_key 0) d)
  ∧ (∀ t', get (delete (summarize_key 0) d) (summarize_key 0) t'
           = (None, delete (summarize_key 0) d))
  ∧ (∀ k', k' ≠ summarize_key 0 →
           delete (summarize_key 0) d !! k' = d !! k').
Proof.
  apply (get_expired_deletes _ _ 60%Q (Some 5%nat)).
  - apply lookup_singleton_eq.
  - vm_compute. reflexivity.
Defined.

(** X3. A result [None] is stored but never served: when the entry of the
    key holds [None], the wrapper runs the function again, even before the
    entry expires, and stores the new result. *)
Theorem stored_none_is_a_miss {V W : Type} (f : W → option V) (ttl : Z)
    (k : key) (t t' : Q) (w : W) (st : state) (e : Q) :
  data st !! k = Some (e, None) →
  ∃ d1, wrapper f ttl k t t' w st
        = (f w, State (<[k := (Qplus t' (inject_Z ttl), f w)]> d1)
                      (S (calls st))).
Proof.
  intros Hk. apply wrapper_miss_stores.
  unfold get. rewrite Hk. by destruct (Qle_bool t e).
Qed.

Lemma stored_none_is_a_miss_witness :
  ∃ d1, wrapper (λ _ : nat, @None nat) 60 (summarize_key 0) 1%Q 1%Q 7%nat
          (State {[ summarize_key 0 := (60%Q, None) ]} 1)
        = (None, State (<[summarize_key 0
                          := (Qplus 1 (inject_Z 60), None)]> d1) 2).
Proof.
  apply (stored_none_is_a_miss (λ _ : nat, @None nat) 60 (summarize_key 0)
           1%Q 1%Q 7%nat (State {[ summarize_key 0 := (60%Q, None) ]} 1)
           60%Q).
  apply lookup_singleton_eq.
Defined.

(** X4. The endpoint [submissions_summary] is never served from the
    cache: each request calls [summarize] on a new service, whose key is
    in no entry, so the repository is queried on every request and the
    response is computed from the data of that moment. This holds from
    the start of the process on: the property [fresh_from] that makes it
    so holds of the empty cache and is kept by every request. *)
Theorem submissions_summary_always_computes {V W : Type}
    (f : W → option V) (t_get t_set : Q) (w : W) (next : nat)
    (st : state) :
  fresh_from next st →
  ∃ st', submissions_summary f t_get t_set w (next, st)
         = (f w, (S next, st'))
         ∧ calls st' = S (calls st)
         ∧ fresh_from (S next) st'.
Proof.
  intros Hfresh. unfold submissions_summary, summarize, wrapper, get.
  rewrite (Hfresh next) by done.
  eexists. split; [reflexivity|]. split; [done|].
  intros i Hi. simpl. unfold set.
  rewrite lookup_insert_ne.
  - apply Hfresh. lia.
  - intros H. apply summarize_key_inj in H. lia.
Qed.

Lemma submissions_summary_always_computes_witness :
  ∃ st', submissions_summary (Some : nat → option nat) 0%Q 0%Q 10%nat
           (0%nat, State ∅ 0)
         = (Some 10%nat, (1%nat, st'))
         ∧ calls st' = 1%nat
         ∧ fresh_from 1 st'.
Proof.
  apply (submissions_summary_always_computes (Some : nat → option nat)
           0%Q 0%Q 10%nat 0%nat (State ∅ 0)).
  intros i _. apply lookup_empty.
Defined.

End CacheProps.

(* ===================================================================== *)
(** * Further properties of the role assignment *)
(* ===================================================================== *)

Module UsersProps.
Import Users.

(** [UserRepository.remove_role]: the mapping of the user to the role is
    looked up with [scalar_one_or_none], which raises when several rows
    match ([None] here), and deleted when there is one. *)
Definition remove_role (d : db) (user_id role_id : Z) : option db :=
  match List.filter (λ ur, (ur_user_id ur =? user_id)
                           && (ur_role_id ur =? role_id)) (user_roles d)
  with
  | [] => Some d
  | [ur] =>
      Some (mkDb (users d) (roles d)
                 (List.filter (λ ur', negb (ur_id ur' =? ur_id ur))
                              (user_roles d))
                 (next_role_id d) (next_user_role_id d))
  | _ => None
  end.

(** [UserRepository.get_roles]: the roles the user is mapped to. *)
Definition get_roles (d : db) (user_id : Z) : list Role :=
  List.flat_map
    (λ ur, List.filter (λ r, role_id r =? ur_role_id ur) (roles d))
    (mappings_of user_id (user_roles d)).

(** X5. [add_role] for one user leaves the mappings of every other user,
    the users and the roles as they were. *)
Theorem add_role_other_users (d : db) (user_id role_id other : Z) :
  other ≠ user_id →
  mappings_of other (user_roles (add_role d user_id role_id))
  = mappings_of other (user_roles d)
  ∧ users (add_role d user_id role_id) = users d
  ∧ roles (add_role d user_id role_id) = roles d.
Proof.
  intros Hne. split; [|done]. unfold add_role; simpl.
  rewrite mappings_of_app, mappings_of_deleted_other by done.
  simpl. destruct (user_id =? other) eqn:E.
  - apply Z.eqb_eq in E. congruence.
  - by rewrite List.app_nil_r.
Qed.

Lemma add_role_other_users_witness :
  let d := mkDb [7; 8] [mkRole 1 "admin"; mkRole 2 "user"]
                [mkUserRole 1 7 2; mkUserRole 2 8 2] 3 3 in
  mappings_of 8 (user_roles (add_role d 7 1)) = mappings_of 8 (user_roles d)
  ∧ users (add_role d 7 1) = users d
  ∧ roles (add_role d 7 1) = roles d.
Proof.
  apply add_role_other_users. lia.
Defined.

(** X6. [set_user_role] fails only for a user that does not exist; the
    answer is then 404 and nothing is written: no role is created and no
    mapping is deleted. *)
Theorem set_user_role_error (d d' : db) (user_id : Z) (name : string)
    (code : Z) :
  set_user_role d user_id name = (Err code, d') ↔
  code = 404 ∧ d' = d ∧ get_by_id d user_id = None.
Proof.
  unfold set_user_role.
  destruct (get_by_id d user_id) as [u|].
  - destruct (get_or_create_role d name) as [role d1].
    split; [discriminate|]. by intros (_ & _ & ?).
  - split; [by intros [= <- <-]|]. by intros (-> & -> & _).
Qed.

Lemma get_role_by_name_spec (d : db) (name : string) (r : Role) :
  get_role_by_name d name = Some r → r ∈ roles d ∧ role_name r = name.
Proof.
  unfold get_role_by_name. intros H.
  apply List.find_some in H as [Hin Heq].
  split; [by apply list_elem_of_In|by apply String.eqb_eq].
Qed.

Lemma find_app_none {A : Type} (p : A → bool) (l : list A) (x : A) :
  List.find p l = None → p x = true → List.find p (l ++ [x]) = Some x.
Proof.
  induction l as [|a l IH]; simpl; intros Hl Hx.
  - by rewrite Hx.
  - destruct (p a); [discriminate|]. by apply IH.
Qed.

(** X7. [get_or_create_role] returns a role of the requested name that is
    in the table afterwards, keeps the roles that were there, adds at most
    one, and asked again for the same name returns the same role without
    adding another. *)
Theorem get_or_create_role_idempotent (d : db) (name : string) :
  let '(role, d1) := get_or_create_role d name in
  role_name role = name
  ∧ role ∈ roles d1
  ∧ (roles d1 = roles d ∨ roles d1 = roles d ++ [role])
  ∧ user_roles d1 = user_roles d
  ∧ get_or_create_role d1 name = (role, d1).
Proof.
  unfold get_or_create_role at 1.
  destruct (get_role_by_name d name) as [r|] eqn:Hfind.
  - destruct (get_role_by_name_spec d name r Hfind) as [Hin Hname].
    repeat split; [done|done|by left|].
    unfold get_or_create_role. by rewrite Hfind.
  - repeat split; simpl; [set_solver|by right|].
    unfold get_or_create_role, get_role_by_name. simpl.
    unfold get_role_by_name in Hfind.
    rewrite (find_app_none _ _ (mkRole (next_role_id d) name) Hfind);
      [done|]. simpl. apply String.eqb_refl.
Qed.

Lemma filter_filter_neg {A : Type} (p q : A → bool) (l : list A) :
  (∀ x, In x l → p x = true → q x = false) →
  List.filter p (List.filter q l) = [].
Proof.
  intros H. induction l as [|a l IH]; simpl; [done|].
  destruct (q a) eqn:Eq; simpl.
  - destruct (p a) eqn:Ep.
    + rewrite (H a) in Eq; [discriminate|by left|done].
    + apply IH. intros x Hx. apply H. by right.
  - apply IH. intros x Hx. apply H. by right.
Qed.

(** X8. [remove_role] with at most one mapping of the user to the role
    (which the unique constraint on the pair ensures) succeeds; afterwards
    the user is not mapped to the role, and no mapping of another key than
    the removed one is lost. *)
Theorem remove_role_removes (d : db) (user_id role_id : Z) :
  NoDup (ur_id <$> user_roles d) →
  Nat.le (length (List.filter (λ ur, (ur_user_id ur =? user_id)
                                     && (ur_role_id ur =? role_id))
                              (user_roles d))) 1 →
  ∃ d', remove_role d user_id role_id = Some d'
        ∧ List.filter (λ ur, (ur_user_id ur =? user_id)
                             && (ur_role_id ur =? role_id)) (user_roles d')
          = []
        ∧ (∀ ur, ur ∈ user_roles d →
                 ¬ (ur_user_id ur = user_id ∧ ur_role_id ur = role_id) →
                 ur ∈ user_roles d')
        ∧ users d' = users d ∧ roles d' = roles d.
Proof.
  intros Hnd Hlen. unfold remove_role.
  destruct (List.filter _ (user_roles d)) as [|ur [|ur2 rest]] eqn:Hf.
  - exists d. by rewrite Hf.
  - eexists. split; [reflexivity|]. simpl.
    assert (Hur : In ur (List.filter
              (λ ur, (ur_user_id ur =? user_id) && (ur_role_id ur =? role_id))
              (user_roles d))) by (rewrite Hf; by left).
    apply List.filter_In in Hur as [Hin Hmatch].
    split; [|split; [|done]].
    + apply filter_filter_neg. intros x Hx Hp.
      assert (Hx' : In x (List.filter
              (λ ur, (ur_user_id ur =? user_id) && (ur_role_id ur =? role_id))
              (user_roles d))) by (apply List.filter_In; done).
      rewrite Hf in Hx'. destruct Hx' as [<-|[]].
      by rewrite Z.eqb_refl.
    + intros x Hx Hno. apply list_elem_of_In, List.filter_In.
      split; [by apply list_elem_of_In|].
      destruct (ur_id x =? ur_id ur) eqn:E; [|done].
      apply Z.eqb_eq in E. exfalso. apply Hno.
      assert (x = ur) as ->.
      { apply list_elem_of_In in Hin.
        apply list_elem_of_lookup in Hx as [i Hi].
        apply list_elem_of_lookup in Hin as [j Hj].
        assert (i = j) as ->.
        { eapply NoDup_lookup; [exact Hnd| |].
          - rewrite list_lookup_fmap, Hi. reflexivity.
          - rewrite list_lookup_fmap, Hj. simpl. by rewrite E. }
        congruence. }
      apply andb_true_iff in Hmatch as [H1 H2].
      by apply Z.eqb_eq in H1, H2.
  - simpl in Hlen. unfold Nat.le in Hlen. lia.
Qed.

Lemma remove_role_removes_witness :
  let d := mkDb [7; 8] [mkRole 1 "admin"; mkRole 2 "user"]
                [mkUserRole 1 7 2; mkUserRole 2 8 2] 3 3 in
  ∃ d', remove_role d 7 2 = Some d'
        ∧ List.filter (λ ur, (ur_user_id ur =? 7) && (ur_role_id ur =? 2))
                      (user_roles d') = []
        ∧ (∀ ur, ur ∈ user_roles d →
                 ¬ (ur_user_id ur = 7 ∧ ur_role_id ur = 2) →
                 ur ∈ user_roles d')
        ∧ users d' = users d ∧ roles d' = roles d.
Proof.
  apply remove_role_removes.
  - simpl. rewrite !NoDup_cons, !not_elem_of_cons.
    repeat split; try lia; try apply not_elem_of_nil. apply NoDup_nil_2.
  - simpl. unfold Nat.le. lia.
Defined.

(** X9. After [add_role] with the id of a role of the table, [get_roles]
    of the user returns the roles of that id and nothing else: with unique
    role ids, exactly the assigned role. *)
Theorem get_roles_after_add_role (d : db) (user_id : Z) (role : Role) :
  List.filter (λ r, role_id r =? role_id role) (roles d) = [role] →
  get_roles (add_role d user_id (role_id role)) user_id = [role].
Proof.
  intros Hrole. unfold get_roles, add_role. simpl.
  rewrite mappings_of_app, mappings_of_deleted. simpl.
  rewrite Z.eqb_refl. simpl. by rewrite Hrole.
Qed.

Lemma get_roles_after_add_role_witness :
  let d := mkDb [7] [mkRole 1 "admin"; mkRole 2 "user"]
                [mkUserRole 1 7 2] 3 2 in
  get_roles (add_role d 7 (role_id (mkRole 1 "admin"))) 7
  = [mkRole 1 "admin"].
Proof.
  apply (get_roles_after_add_role
           (mkDb [7] [mkRole 1 "admin"; mkRole 2 "user"]
                 [mkUserRole 1 7 2] 3 2) 7 (mkRole 1 "admin")).
  reflexivity.
Defined.

End UsersProps.

(* ===================================================================== *)
(** * Further properties of the summary *)
(* ===================================================================== *)

Module SummaryProps.
Import Entity Summary.

(** [o is not None] *)
Definition not_null {A : Type} (o : option A) : bool :=
  match o with Some _ => true | None => false end.

(** The sum of the values of a dictionary of counts. *)
Definition sum_counts (m : gmap string nat) : nat :=
  map_fold (λ _ v acc, (v + acc)%nat) 0%nat m.

Lemma sum_counts_insert_fresh (m : gmap string nat) k v :
  m !! k = None → sum_counts (<[k := v]> m) = (v + sum_counts m)%nat.
Proof.
  intros Hk. unfold sum_counts.
  apply (map_fold_insert_L (λ _ v acc, (v + acc)%nat)); [|done].
  intros. lia.
Qed.

Lemma sum_counts_insert (m : gmap string nat) k v :
  (sum_counts (<[k := v]> m) + default 0 (m !! k))%nat
  = (sum_counts m + v)%nat.
Proof.
  destruct (m !! k) as [old|] eqn:Hk; simpl.
  - rewrite <- (insert_delete_eq m k v).
    rewrite <- (insert_delete_id m k old Hk) at 2.
    rewrite !sum_counts_insert_fresh by apply lookup_delete_eq. lia.
  - rewrite sum_counts_insert_fresh by done. lia.
Qed.

Lemma sum_counts_count_by {A : Type} (col : A → option string) rows :
  sum_counts (count_by col rows)
  = length (List.filter (λ r, not_null (col r)) rows).
Proof.
  induction rows as [|r rows IH]; simpl; [done|].
  destruct (col r) as [k|] eqn:E; simpl; [|done].
  pose proof (sum_counts_insert (count_by col rows) k
                (S (default 0%nat (count_by col rows !! k)))) as H.
  rewrite <- IH. lia.
Qed.

Lemma summarize_status_counts now subs :
  status_counts (summarize now subs) = count_by (λ s, Some (status s)) subs.
Proof. unfold summarize. by destruct (images_loop _). Qed.

Lemma summarize_total now subs :
  total_submissions (summarize now subs) = length subs.
Proof. unfold summarize. by destruct (images_loop _). Qed.

Lemma summarize_public_counts now subs :
  public_counts (summarize now subs)
  = (length (List.filter (λ s, is_public (status s)) subs),
     (length subs
      - length (List.filter (λ s, is_public (status s)) subs))%nat).
Proof. unfold summarize. by destruct (images_loop _). Qed.

Lemma public_split subs :
  length (List.filter (λ s, is_public (status s)) subs)
  = (length (with_status "published" subs)
     + length (with_status "found_alive" subs)
     + length (with_status "found_dead" subs))%nat.
Proof.
  assert (Hpub : ∀ st, is_public st
            = String.eqb st "published" || String.eqb st "found_alive"
              || String.eqb st "found_dead").
  { intros st. unfold is_public. simpl. by rewrite orb_false_r, orb_assoc. }
  unfold with_status.
  induction subs as [|s subs IH]; [done|].
  cbn [List.filter]. rewrite Hpub.
  destruct (String.eqb (status s) "published") eqn:E1,
           (String.eqb (status s) "found_alive") eqn:E2,
           (String.eqb (status s) "found_dead") eqn:E3;
    cbn [orb length]; rewrite ?IH; try lia;
    rewrite ?String.eqb_eq in *; congruence.
Qed.

Lemma filter_length_le {A : Type} (p : A → bool) (l : list A) :
  (length (List.filter p l) ≤ length l)%nat.
Proof.
  induction l as [|a l IH]; simpl; [done|]. destruct (p a); simpl; lia.
Qed.

(** X10. The two public counts split the total: [public] is the number of
    submissions that are published, found alive or found dead, and
    [public + non_public] is the number of submissions. *)
Theorem public_counts_partition (now : datetime) (subs : list Submission) :
  let '(public, non_public) := public_counts (summarize now subs) in
  (public + non_public)%nat = total_submissions (summarize now subs)
  ∧ public = (length (with_status "published" subs)
              + found_alive_count (summarize now subs)
              + found_dead_count (summarize now subs))%nat.
Proof.
  rewrite summarize_public_counts, summarize_total.
  pose proof (filter_length_le (λ s, is_public (status s)) subs).
  split; [lia|]. rewrite public_split.
  unfold summarize. destruct (images_loop _). simpl.
  by rewrite !count_by_get.
Qed.

(** X11. The counts by status add up to the total number of
    submissions. *)
Theorem status_counts_sum (now : datetime) (subs : list Submission) :
  sum_counts (status_counts (summarize now subs))
  = total_submissions (summarize now subs).
Proof.
  rewrite summarize_status_counts, summarize_total, sum_counts_count_by.
  f_equal. induction subs as [|s subs IH]; simpl; [done|].
  f_equal. exact IH.
Qed.

(** X12. The counts by province (likewise by gender and by race) leave
    out the submissions where the column is null: they add up to the
    number of submissions that have a province. *)
Theorem province_counts_sum (now : datetime) (subs : list Submission) :
  sum_counts (province_counts (summarize now subs))
  = length (List.filter (λ s, not_null (province s)) subs)
  ∧ sum_counts (gender_counts (summarize now subs))
    = length (List.filter (λ s, not_null (gender s)) subs)
  ∧ sum_counts (race_counts (summarize now subs))
    = length (List.filter (λ s, not_null (race s)) subs).
Proof.
  unfold summarize. destruct (images_loop _). simpl.
  by rewrite !sum_counts_count_by.
Qed.

Lemma true_div_bounds (a b : nat) :
  (a ≤ b)%nat → (0 < b)%nat →
  Qle 0 (true_div a b) ∧ Qle (true_div a b) 1.
Proof.
  intros Hab Hb. unfold true_div.
  assert (Hpos : Qlt 0 (inject_Z (Z.of_nat b))).
  { unfold Qlt. simpl. lia. }
  split.
  - apply (double_of_ge _ 0); [lia|].
    apply Qle_shift_div_l; [done|]. unfold Qle. simpl. lia.
  - apply (double_of_le _ 1); [lia|].
    apply Qle_shift_div_r; [done|]. unfold Qle. simpl. lia.
Qed.

(** X13. [found_rate] is a fraction: it lies between 0 and 1. *)
Theorem found_rate_bounds (now : datetime) (subs : list Submission) :
  Qle 0 (found_rate (summarize now subs))
  ∧ Qle (found_rate (summarize now subs)) 1.
Proof.
  rewrite summarize_found_rate.
  destruct (0 <? length subs)%nat eqn:E.
  - apply Nat.ltb_lt in E. apply true_div_bounds; [|done].
    pose proof (public_split subs) as Hp.
    pose proof (filter_length_le (λ s, is_public (status s)) subs). lia.
  - split; unfold Qle; simpl; lia.
Qed.

Lemma sum_list_ge (n : nat) (ls : list (list string)) :
  Forall (λ l, (n ≤ length l)%nat) ls →
  (n * length ls ≤ sum_list (length <$> ls))%nat.
Proof.
  induction 1 as [|l ls Hl _ IH]; simpl; [lia|].
  change (list_fmap _ _ length ls) with (length <$> ls). lia.
Qed.

(** X14. [create_submission] stores at least 3 images with every
    submission. When every image list that is not null has at least [n]
    images and there is such a list, the average is at least [n]: the
    submissions with a null list do not pull it down. The average being a
    float, this is stated for [n] up to [2 ^ 53], the integers that far
    being doubles ([double_of_ties]: an average of [2 ^ 53 + 1] is
    rounded to [2 ^ 53]). *)
Theorem avg_images_at_least (now : datetime) (subs : list Submission)
    (n : nat) :
  Forall (λ s, ∀ l, images s = Some l → (n ≤ length l)%nat) subs →
  image_lists subs ≠ [] →
  Z.of_nat n ≤ 2 ^ 53 →
  Qle (inject_Z (Z.of_nat n))
      (avg_images_per_submission (summarize now subs)).
Proof.
  intros Hall. rewrite summarize_avg.
  assert (Hls : Forall (λ l, (n ≤ length l)%nat) (image_lists subs)).
  { unfold image_lists. induction Hall as [|s subs Hs _ IH]; simpl.
    - constructor.
    - destruct (images s) as [l|] eqn:E; simpl; [|exact IH].
      constructor; [by apply Hs|exact IH]. }
  intros Hne Hn. apply sum_list_ge in Hls.
  destruct (image_lists subs) as [|l ls] eqn:El; [done|].
  simpl length in *. simpl Nat.ltb.
  unfold true_div. apply double_of_ge; [lia|].
  apply Qle_shift_div_l.
  - unfold Qlt. simpl. lia.
  - unfold Qle. simpl. simpl in Hls. nia.
Qed.

Lemma avg_images_at_least_witness :
  let mk imgs := mkSubmission 1 "pending" None None None None imgs None
                   (mkDatetime 2024 5 1 0) in
  Qle (inject_Z (Z.of_nat 3))
      (avg_images_per_submission
         (summarize (mkDatetime 2024 6 2 0)
            [mk (Some ["a"; "b"; "c"]); mk None;
             mk (Some ["d"; "e"; "f"; "g"])]%string)).
Proof.
  apply avg_images_at_least.
  - repeat constructor; simpl; intros l [= <-]; simpl; lia.
  - discriminate.
  - simpl. lia.
Defined.

End SummaryProps.

(* ===================================================================== *)
(** * Further properties of the listings *)
(* ===================================================================== *)

Module ListingProps.
Import Entity Listing.

(** [SubmissionRepository.list_by_user] *)
Definition repo_list_by_user (user : Z) (limit offset : Z)
    (subs : list Submission) : list Submission :=
  let safe_limit := Z.max 0 (Z.min limit 1000) in
  take (Z.to_nat safe_limit)
       (drop (Z.to_nat offset)
             (order_by_created_at_desc
                (List.filter (λ s, bool_decide (user_id s = Some user))
                             subs))).

(** [SubmissionService.list_by_user] *)
Definition service_list_by_user (user : Z) (limit offset : Z)
    (subs : list Submission) : list Submission :=
  let safe_limit := Z.max 0 (Z.min limit 1000) in
  repo_list_by_user user safe_limit offset subs.

(** [GET /submissions/mine] for the user of id [user]: the page that is
    returned. (The driver refuses an offset beyond 64 bits as it does for
    [list_submissions]; the properties of this endpoint below are about
    the rows of a page, whatever its offset.) *)
Definition list_my_submissions (user : Z) (page limit : Z)
    (subs : list Submission) : list Submission :=
  let page := clamp_page page in
  let limit := clamp_limit limit in
  let offset := (page - 1) * limit in
  service_list_by_user user limit offset subs.

Lemma filter_length_bound {A : Type} (p : A → bool) (l : list A) :
  (length (List.filter p l) ≤ length l)%nat.
Proof.
  induction l as [|a l IH]; simpl; [done|]. destruct (p a); simpl; lia.
Qed.

(** X15. When no two submissions have the same [created_at] and the
    offsets fit 64 bits, pages follow one another without gap or overlap:
    page [p] and page [p + 1] of the same size, one after the other, are
    the rows that a page of twice the size shows from the start of page
    [p], in the order newest first. (With equal [created_at] each query
    orders the ties as the database pleases: [ties_overlap].) *)
Theorem consecutive_pages (page limit : Z) (subs ordered : list Submission) :
  1 ≤ page → 1 ≤ limit ≤ 1000 → page * limit ≤ 2 ^ 63 - 1 →
  NoDup (created_at <$> subs) →
  ordered ≡ₚ subs → StronglySorted newer_first ordered →
  ∃ rows1 rows2,
    list_submissions page limit subs = Ok rows1
    ∧ list_submissions (page + 1) limit subs = Ok rows2
    ∧ rows1 ++ rows2
      = take (Z.to_nat (2 * limit))
             (drop (Z.to_nat ((page - 1) * limit)) ordered).
Proof.
  intros Hp Hl Hoff Hnd Hperm Hsorted.
  rewrite (ordered_unique subs ordered) by done.
  assert (Hcl : clamp_limit limit = limit) by (unfold clamp_limit; lia).
  assert (Hcp : ∀ p, 1 ≤ p → clamp_page p = p)
    by (intros p Hp1; unfold clamp_page; lia).
  eexists _, _.
  split; [|split].
  - apply list_submissions_unfold.
    rewrite Hcl, Hcp by lia. unfold int64_max. nia.
  - apply list_submissions_unfold.
    rewrite Hcl, Hcp by lia. unfold int64_max. nia.
  - rewrite Hcl, !Hcp by lia.
    replace (Z.to_nat ((page + 1 - 1) * limit))
      with (Z.to_nat ((page - 1) * limit) + Z.to_nat limit)%nat by nia.
    rewrite <- drop_drop, take_take_drop. f_equal. lia.
Qed.

Lemma consecutive_pages_witness :
  ∃ rows1 rows2,
    list_submissions 1 2
      [at_time 1 2024 1 5; at_time 2 2024 3 1; at_time 3 2023 12 31]
    = Ok rows1
    ∧ list_submissions (1 + 1) 2
        [at_time 1 2024 1 5; at_time 2 2024 3 1; at_time 3 2023 12 31]
      = Ok rows2
    ∧ rows1 ++ rows2
      = take (Z.to_nat (2 * 2))
             (drop (Z.to_nat ((1 - 1) * 2))
                   [at_time 2 2024 3 1; at_time 1 2024 1 5;
                    at_time 3 2023 12 31]).
Proof.
  apply consecutive_pages; [lia|lia|simpl; lia| | |].
  - repeat constructor; rewrite ?not_elem_of_cons; rewrite ?elem_of_nil;
      intuition discriminate.
  - apply Permutation_sym, perm_swap.
  - repeat constructor.
Defined.

(** X16. With an offset that fits 64 bits, a page that starts at or
    after the end of the table is empty; the first page, when the limit
    in force is at least the number of rows, shows every row. *)
Theorem page_past_the_end (page limit : Z) (subs : list Submission) :
  (Z.of_nat (length subs) ≤ (Z.max 1 page - 1) * Z.max 1 (Z.min limit 1000) →
   (Z.max 1 page - 1) * Z.max 1 (Z.min limit 1000) ≤ 2 ^ 63 - 1 →
   list_submissions page limit subs = Ok [])
  ∧ (Z.of_nat (length subs) ≤ Z.max 1 (Z.min limit 1000) →
     ∃ rows, list_submissions 1 limit subs = Ok rows ∧ rows ≡ₚ subs).
Proof.
  split.
  - intros H Hoff. rewrite list_submissions_unfold by exact Hoff.
    f_equal. rewrite drop_ge; [by rewrite take_nil|].
    rewrite ordered_perm. unfold clamp_page, clamp_limit. lia.
  - intros H. eexists. split.
    + apply list_submissions_unfold. unfold clamp_page, int64_max. simpl. lia.
    + unfold clamp_page. simpl. rewrite drop_0.
      rewrite take_ge by (rewrite ordered_perm; unfold clamp_limit; lia).
      apply ordered_perm.
Qed.

Lemma page_past_the_end_witness :
  list_submissions 3 2
    [at_time 1 2024 1 5; at_time 2 2024 3 1; at_time 3 2023 12 31] = Ok [].
Proof.
  apply (proj1 (page_past_the_end 3 2 _)); simpl; lia.
Defined.

(** X17. [SubmissionService.list] called with a limit that is zero or
    negative returns no row, and with any limit returns at most 1000. *)
Theorem service_list_limits (limit offset : Z) (subs : list Submission) :
  (limit ≤ 0 → service_list limit offset subs = [])
  ∧ (length (service_list limit offset subs) ≤ 1000)%nat.
Proof.
  unfold service_list, repo_list. split.
  - intros H. by replace (Z.to_nat _) with 0%nat by lia.
  - rewrite length_take. lia.
Qed.

Lemma service_list_limits_witness :
  service_list (-5) 0 [at_time 1 2024 1 5; at_time 2 2024 3 1] = [].
Proof. apply (proj1 (service_list_limits (-5) 0 _)). lia. Defined.

(** X18. [GET /submissions/mine] returns only submissions of the current
    user, at most 1000 of them, newest first; with a limit in force that
    is at least their number, the first page has all of them. *)
Theorem list_my_submissions_spec (user page limit : Z)
    (subs : list Submission) :
  (∀ s, s ∈ list_my_submissions user page limit subs →
        s ∈ subs ∧ user_id s = Some user)
  ∧ (length (list_my_submissions user page limit subs) ≤ 1000)%nat
  ∧ StronglySorted newer_first (list_my_submissions user page limit subs)
  ∧ (∀ s, s ∈ subs → user_id s = Some user →
          Z.of_nat (length subs) ≤ clamp_limit limit →
          s ∈ list_my_submissions user 1 limit subs).
Proof.
  assert (HL : 1 ≤ clamp_limit limit ≤ 1000) by (unfold clamp_limit; lia).
  unfold list_my_submissions, service_list_by_user, repo_list_by_user.
  split; [|split; [|split]].
  - intros s Hs.
    apply (subseteq_take _ _ _) in Hs. apply (subseteq_drop _ _ _) in Hs.
    unfold order_by_created_at_desc in Hs.
    rewrite merge_sort_Permutation in Hs.
    apply list_elem_of_In, List.filter_In in Hs as [Hin Hu].
    split; [by apply list_elem_of_In|by apply bool_decide_eq_true in Hu].
  - rewrite length_take. lia.
  - apply sorted_take_drop, ordered_sorted.
  - intros s Hin Hu Hlen. unfold clamp_page. simpl. rewrite drop_0.
    assert (Hf : s ∈ List.filter (λ s, bool_decide (user_id s = Some user))
                       subs).
    { apply list_elem_of_In, List.filter_In.
      split; [by apply list_elem_of_In|by apply bool_decide_eq_true]. }
    pose proof (filter_length_bound
                  (λ s, bool_decide (user_id s = Some user)) subs) as Hle.
    rewrite take_ge.
    + unfold order_by_created_at_desc. by rewrite merge_sort_Permutation.
    + rewrite ordered_perm. lia.
Qed.

End ListingProps.

(* ===================================================================== *)
(** * Further properties of the comment moderation *)
(* ===================================================================== *)

Module CommentsProps.
Import Entity Comments.

(** The row with a new status and reason. *)
Definition moderated (c : Comment) (status : string)
    (reason : option string) : Comment :=
  mkComment (c_id c) (c_submission_id c) (c_user_id c) (c_body c)
            (c_image_url c) status reason (c_created_at c).

(** The primary key is unique and behind the sequence. *)
Definition pk_unique (d : db) : Prop :=
  NoDup (c_id <$> comments d) ∧ pk_ok d.

(** A submission that carries a given [created_at], to compare comments
    by the order of the submissions. *)
Definition at_created (dt : datetime) : Submission :=
  mkSubmission 0 "" None None None None None None dt.

Lemma get_by_id_spec d id c :
  get_by_id d id = Some c → c ∈ comments d ∧ c_id c = id.
Proof.
  unfold get_by_id. intros H. apply List.find_some in H as [Hin Heq].
  split; [by apply list_elem_of_In|by apply Z.eqb_eq].
Qed.

Lemma set_status_elem id status reason t c :
  c ∈ t → c_id c = id → moderated c status reason ∈ set_status id status
                                                       reason t.
Proof.
  intros Hin Hid. unfold set_status.
  apply list_elem_of_fmap. exists c. split; [|done].
  subst id. by rewrite Z.eqb_refl.
Qed.

Lemma set_status_inv id status reason t c' :
  c' ∈ set_status id status reason t →
  (c' ∈ t ∧ c_id c' ≠ id)
  ∨ (∃ c, c ∈ t ∧ c_id c = id ∧ c' = moderated c status reason).
Proof.
  unfold set_status. intros H.
  apply list_elem_of_fmap in H as (c & -> & Hin).
  destruct (c_id c =? id) eqn:E.
  - apply Z.eqb_eq in E. right. by exists c.
  - apply Z.eqb_neq in E. by left.
Qed.

Lemma set_status_ids id status reason t :
  c_id <$> set_status id status reason t = c_id <$> t.
Proof.
  unfold set_status. rewrite <- list_fmap_compose.
  apply list_fmap_ext. intros i c _. simpl. by destruct (c_id c =? id).
Qed.

(** X19. Approving a comment returns it with status "approved" and no
    rejection reason, and puts it into the public listing of its
    submission; the admin's approval is what makes a comment public. *)
Theorem approve_makes_public (d : db) (comment_id : Z) (c : Comment) :
  get_by_id d comment_id = Some c →
  ∃ d', approve_comment d comment_id
        = (Ok (moderated c "approved" None), d')
        ∧ moderated c "approved" None
          ∈ list_by_submission_public d' (c_submission_id c)
        ∧ length (comments d') = length (comments d).
Proof.
  intros Hget. destruct (get_by_id_spec _ _ _ Hget) as [Hin Hid].
  unfold approve_comment. rewrite Hget.
  eexists. split; [reflexivity|]. split.
  - apply list_by_submission_public_elem. simpl.
    split; [|done]. by apply set_status_elem.
  - simpl. unfold set_status. by rewrite length_fmap.
Qed.

Lemma approve_makes_public_witness :
  let c := mkComment 1 5 (Some 3) "seen" None "pending" None
                     (mkDatetime 2024 6 2 0) in
  ∃ d', approve_comment (mkDb [c] 2 []) 1
        = (Ok (moderated c "approved" None), d')
        ∧ moderated c "approved" None
          ∈ list_by_submission_public d' (c_submission_id c)
        ∧ length (comments d') = length (comments (mkDb [c] 2 [])).
Proof. apply approve_makes_public. reflexivity. Defined.

(** X20. After a comment is rejected, no comment of that id is in any
    public listing, also when it had been approved before; the comment
    carries the reason given. *)
Theorem reject_hides (d : db) (comment_id : Z) (reason : option string)
    (c : Comment) :
  get_by_id d comment_id = Some c →
  ∃ d', reject_comment d comment_id reason
        = (Ok (moderated c "rejected" reason), d')
        ∧ (∀ s c', c' ∈ list_by_submission_public d' s →
                   c_id c' ≠ comment_id)
        ∧ moderated c "rejected" reason ∈ comments d'.
Proof.
  intros Hget. destruct (get_by_id_spec _ _ _ Hget) as [Hin Hid].
  unfold reject_comment. rewrite Hget.
  eexists. split; [reflexivity|]. split.
  - intros s c' H. apply list_by_submission_public_elem in H.
    destruct H as (Hc' & _ & Hst). simpl in Hc'.
    apply set_status_inv in Hc' as [[_ Hne]|(c0 & _ & _ & ->)]; [done|].
    discriminate Hst.
  - simpl. by apply set_status_elem.
Qed.

Lemma reject_hides_witness :
  let c := mkComment 1 5 (Some 3) "seen" None "approved" None
                     (mkDatetime 2024 6 2 0) in
  ∃ d', reject_comment (mkDb [c] 2 []) 1 (Some "spam"%string)
        = (Ok (moderated c "rejected" (Some "spam"%string)), d')
        ∧ (∀ s c', c' ∈ list_by_submission_public d' s → c_id c' ≠ 1)
        ∧ moderated c "rejected" (Some "spam"%string) ∈ comments d'.
Proof. apply reject_hides. reflexivity. Defined.

(** X21. Moderating a comment that does not exist answers 404 and changes
    nothing; moderating one that exists leaves every comment of another id
    as it is, so the public listings lose and gain only comments of the
    moderated id. *)
Theorem moderation_frame (d : db) (comment_id : Z)
    (reason : option string) :
  (get_by_id d comment_id = None →
   approve_comment d comment_id = (Err 404, d)
   ∧ reject_comment d comment_id reason = (Err 404, d))
  ∧ (∀ c, c_id c ≠ comment_id →
       (c ∈ comments (approve_comment d comment_id).2 ↔ c ∈ comments d)
       ∧ (c ∈ comments (reject_comment d comment_id reason).2
          ↔ c ∈ comments d)).
Proof.
  split.
  - intros H. unfold approve_comment, reject_comment. by rewrite H.
  - intros c Hne. unfold approve_comment, reject_comment.
    destruct (get_by_id d comment_id) as [c0|]; [|done]. simpl.
    assert (H : ∀ st r, c ∈ set_status comment_id st r (comments d)
                        ↔ c ∈ comments d).
    { intros st r. split.
      - intros H. apply set_status_inv in H as [[? _]|(c1 & _ & Hid & ->)];
          [done|]. by simpl in Hne.
      - intros H. unfold set_status. apply list_elem_of_fmap.
        exists c. split; [|done].
        apply Z.eqb_neq in Hne. by rewrite Hne. }
    split; apply H.
Qed.

Lemma find_last {A : Type} (p : A → bool) (l : list A) (x : A) :
  p x = true → is_Some (List.find p (l ++ [x])).
Proof.
  intros Hx. induction l as [|a l IH]; simpl.
  - rewrite Hx. eauto.
  - destruct (p a); eauto.
Qed.

Lemma save_image_files e d user image r d1 :
  save_image e d user image = (r, d1) →
  (image = None → d1 = d)
  ∧ (r = Err 400 → d1 = d)
  ∧ (∀ code, r = Err code → code = 400 ∨ code = 500)
  ∧ (files d1 = files d
     ∨ ∃ name data,
         files d1 = files d ++ [("files/comments/" +:+ name, data)]).
Proof.
  unfold save_image. intros H.
  repeat match type of H with
  | context [match ?x with _ => _ end] => destruct x
  end; injection H as <- <-;
    (split; [try done|split; [try done|split;
       [intros c [= <-]; auto|simpl; eauto]]]).
Qed.

(** X22. A request to [create_comment] that fails stores no comment, and
    fails with 403 (the author is an admin, in any letter case), 400 (the
    upload is not an image) or 500 (the image could not be written, or
    the INSERT was refused). With 403 and 400 nothing is changed. With
    500 a file may stay behind under [files/comments/]: the image
    written before the INSERT was refused, or what was written of an
    image when the write failed; without an upload no file is added. *)
Theorem create_comment_error (e : env) (d d' : db) (sid : Z)
    (body : string) (image : option UploadFile) (user : UserDTO)
    (code : Z) :
  create_comment e d sid body image user = (Err code, d') →
  comments d' = comments d
  ∧ (code = 403 ∨ code = 400 ∨ code = 500)
  ∧ (code = 403 ∨ code = 400 → d' = d)
  ∧ (image = None → files d' = files d)
  ∧ (files d' = files d
     ∨ ∃ name data,
         files d' = files d ++ [("files/comments/" +:+ name, data)]).
Proof.
  unfold create_comment.
  destruct (is_admin user); [intros [= <- <-]; auto 6|].
  destruct (save_image e d user image) as [[image_url|c] d1] eqn:Hs.
  - destruct (save_image_comments _ _ _ _ _ _ Hs) as [Hc _].
    destruct (save_image_files _ _ _ _ _ _ Hs) as (Hnone & _ & _ & Hf).
    destruct (submission_exists e sid).
    + unfold repo_create, get_by_id. simpl.
      destruct (find_last (λ c, c_id c =? next_id d1) (comments d1)
                  (mkComment (next_id d1) sid (Some (u_id user)) body
                             image_url "pending" None (now e))
                  (Z.eqb_refl _)) as [x ->].
      discriminate.
    + intros [= <- <-]. split; [done|]. split; [auto|].
      split; [intros [?|?]; discriminate|]. split; [|done].
      intros Hi. by rewrite (Hnone Hi).
  - intros H. injection H as Hcode Hd. subst c d1.
    destruct (save_image_comments _ _ _ _ _ _ Hs) as [Hc _].
    destruct (save_image_files _ _ _ _ _ _ Hs) as (Hnone & H400 & Hcodes & Hf).
    split; [done|]. split; [destruct (Hcodes code eq_refl); auto|].
    split; [|split; [|done]].
    + intros [->| ->]; [|by apply H400].
      destruct (Hcodes 403 eq_refl); discriminate.
    + intros Hi. by rewrite (Hnone Hi).
Qed.

Definition env_write_fails : env :=
  mkEnv (mkDatetime 2024 6 2 0) "0123abcd" "http://host"
        (write_failed "GIF8") (λ _, "") (λ _, true).

Lemma create_comment_error_witness :
  let d := mkDb [] 1 [] in
  let d' := mkDb [] 1 [("files/comments/c_3_0123abcd.gif", "GIF8")]%string in
  comments d' = comments d
  ∧ (500 = 403 ∨ 500 = 400 ∨ 500 = 500)
  ∧ (500 = 403 ∨ 500 = 400 → d' = d)
  ∧ (Some (mkUpload (Some "image/gif") (Some "photo") "GIF89a")%string = None
     → files d' = files d)
  ∧ (files d' = files d
     ∨ ∃ name data,
         files d' = files d ++ [("files/comments/" +:+ name, data)]).
Proof.
  apply (create_comment_error env_write_fails (mkDb [] 1 []) _ 5 "seen"
           (Some (mkUpload (Some "image/gif") (Some "photo") "GIF89a"))
           (mkUser 3 ["user"%string]) 500).
  reflexivity.
Defined.

(** The image is written, the INSERT is refused: the response is 500 and
    the image stays. *)
Example create_comment_insert_refused :
  create_comment
    (mkEnv (mkDatetime 2024 6 2 0) "0123abcd" "http://host" written
           (λ _, "") (λ _, false))
    (mkDb [] 1 []) 5 "seen"
    (Some (mkUpload (Some "image/gif") (Some "photo") "GIF89a"))
    (mkUser 3 ["user"%string])
  = (Err 500,
     mkDb [] 1 [("files/comments/c_3_0123abcd.gif", "GIF89a")]%string).
Proof. reflexivity. Qed.

(** X23. The primary key stays unique and behind the sequence through
    [create_comment], [approve_comment] and [reject_comment]. *)
Theorem pk_unique_preserved (e : env) (d : db) :
  pk_unique d →
  (∀ sid body image user,
     pk_unique (create_comment e d sid body image user).2)
  ∧ (∀ id, pk_unique (approve_comment d id).2)
  ∧ (∀ id reason, pk_unique (reject_comment d id reason).2).
Proof.
  intros [Hnd Hpk].
  assert (Hmod : ∀ id st r,
            pk_unique (mkDb (set_status id st r (comments d)) (next_id d)
                            (files d))).
  { intros id st r. unfold pk_unique, pk_ok. simpl. split.
    - by rewrite set_status_ids.
    - apply Forall_forall. intros c Hc.
      unfold pk_ok in Hpk. rewrite Forall_forall in Hpk.
      apply set_status_inv in Hc as [[Hc _]|(c0 & Hc0 & _ & ->)];
        [by apply Hpk|]. simpl. by apply Hpk. }
  split; [|split].
  - intros sid body image user. unfold create_comment.
    destruct (is_admin user); [done|].
    destruct (save_image e d user image) as [[image_url|c] d1] eqn:Hs.
    + apply save_image_comments in Hs as [Hc Hn].
      destruct (submission_exists e sid);
        [|unfold pk_unique, pk_ok; simpl; by rewrite Hc, Hn].
      unfold repo_create. simpl.
      assert (Hnew : pk_unique
                (mkDb (comments d1
                       ++ [mkComment (next_id d1) sid (Some (u_id user))
                                     body image_url "pending" None (now e)])
                      (next_id d1 + 1) (files d1))).
      { unfold pk_unique, pk_ok. simpl. rewrite Hc, Hn. split.
        - rewrite fmap_app. simpl. apply NoDup_app. split; [done|].
          split; [|apply NoDup_singleton].
          intros x Hx Hx'. apply list_elem_of_singleton in Hx' as ->.
          apply list_elem_of_fmap in Hx as (c & Hid & Hin).
          unfold pk_ok in Hpk. rewrite Forall_forall in Hpk.
          specialize (Hpk c Hin). lia.
        - apply Forall_app. split.
          + eapply Forall_impl; [exact Hpk|]. intros c. simpl. lia.
          + repeat constructor. simpl. lia. }
      by destruct (get_by_id _ _).
    + apply save_image_comments in Hs as [Hc Hn].
      unfold pk_unique, pk_ok. simpl. by rewrite Hc, Hn.
  - intros id. unfold approve_comment.
    destruct (get_by_id d id); [apply Hmod|done].
  - intros id reason. unfold reject_comment.
    destruct (get_by_id d id); [apply Hmod|done].
Qed.

Lemma pk_unique_preserved_witness :
  pk_unique (create_comment env0 (mkDb [] 1 []) 5 "seen" None
               (mkUser 3 ["user"%string])).2.
Proof.
  apply (proj1 (pk_unique_preserved env0 (mkDb [] 1 [])
                  (conj (NoDup_nil_2 : NoDup (c_id <$> [])) (Forall_nil_2 _)))).
Defined.

(** X24. The admin listing without a filter shows every comment, newest
    first; with one of the three statuses as filter, the comments of that
    status and no other. *)
Theorem list_admin_spec (d : db) :
  list_admin d None ≡ₚ comments d
  ∧ StronglySorted newer_first (list_admin d None)
  ∧ (∀ st c, st ≠ ""%string →
       (c ∈ list_admin d (Some st) ↔ c ∈ comments d ∧ c_status c = st)).
Proof.
  assert (Ht : Transitive newer_first).
  { intros a b c. unfold newer_first. intros Hab Hbc.
    apply (Listing.newer_first_trans
             (at_created (c_created_at a)) (at_created (c_created_at b))
             (at_created (c_created_at c))); done. }
  assert (Htot : Total newer_first).
  { intros a b. unfold newer_first.
    apply (Listing.newer_first_total
             (at_created (c_created_at a)) (at_created (c_created_at b))). }
  unfold list_admin. split; [apply merge_sort_Permutation|]. split.
  - by apply StronglySorted_merge_sort.
  - intros st c Hst. apply String.eqb_neq in Hst. rewrite Hst.
    rewrite merge_sort_Permutation.
    rewrite list_elem_of_In, List.filter_In, String.eqb_eq.
    by rewrite <- list_elem_of_In.
Qed.

End CommentsProps.

(* ===================================================================== *)
(** * Further properties of the update and of the owner check *)
(* ===================================================================== *)

Module UpdateProps.
Import Entity Update.

(** [dict.get]: the value of a keyword argument. *)
Definition kwarg (kwargs : list (string * value)) (k : string)
    : option value :=
  snd <$> List.find (λ kv, String.eqb kv.1 k) kwargs.

(** [existing.user_id] of the DTO of a row. *)
Definition owner_of (sub : gmap string value) : option Z :=
  match sub !! "user_id"%string with
  | Some (VInt z) => Some z
  | _ => None
  end.

(** [existing.user_id != user.id and "admin" not in user_roles] *)
Definition forbidden (existing : gmap string value)
    (user : Comments.UserDTO) : bool :=
  negb (bool_decide (owner_of existing = Some (Comments.u_id user)))
  && negb (existsb (String.eqb "admin") (Comments.u_roles user)).

(** [PUT /submissions/{submission_id}] *)
Definition update_submission (t : gmap Z (gmap string value))
    (user : Comments.UserDTO) (submission_id : Z)
    (data : SubmissionUpdateDTO)
    : http (gmap string value) * gmap Z (gmap string value) :=
  match get_by_id t submission_id with
  | None => (Err 404, t)
  | Some existing =>
      if forbidden existing user then (Err 403, t)
      else
        match service_update t submission_id data with
        | (Some updated, t') => (Ok updated, t')
        | (None, t') => (Err 500, t')
        end
  end.

(** [SubmissionRepository.delete] *)
Definition repo_delete (t : gmap Z (gmap string value)) (id : Z)
    : bool * gmap Z (gmap string value) :=
  match get_by_id t id with
  | None => (false, t)
  | Some _ => (true, delete id t)
  end.

(** Whether a row of the table [comment] refers to the submission. *)
Definition has_comments (cs : list Comments.Comment) (id : Z) : bool :=
  existsb (λ c, Comments.c_submission_id c =? id) cs.

(** [DELETE /submissions/{submission_id}]; [cs] is the table [comment].
    The relationship [Comment.submission] has a [backref] without delete
    cascade: at the commit the ORM first sets [submission_id] of the
    comments of the deleted submission to null, which the column
    ([nullable=False]) refuses. The [IntegrityError] is not caught: the
    response is 500 and nothing is deleted. *)
Definition delete_submission (cs : list Comments.Comment)
    (t : gmap Z (gmap string value))
    (user : Comments.UserDTO) (submission_id : Z)
    : http unit * gmap Z (gmap string value) :=
  match get_by_id t submission_id with
  | None => (Err 404, t)
  | Some existing =>
      if forbidden existing user then (Err 403, t)
      else if has_comments cs submission_id then (Err 500, t)
      else (Ok tt, (repo_delete t submission_id).2)
  end.

(** The update that sets nothing. *)
Definition no_change : SubmissionUpdateDTO :=
  mkUpdateDTO None None None None None None None None None None None None
              None None None.

Lemma update_attrs_none_attr sub kwargs k :
  sub !! k = None → update_attrs sub kwargs !! k = None.
Proof.
  unfold update_attrs. revert sub.
  induction kwargs as [|[k0 v0] kwargs IH]; intros sub Hk;
    cbn [fold_left]; [done|].
  apply IH. rewrite update_step_lookup.
  destruct (bool_decide (k0 = k)) eqn:E; [|done].
  apply bool_decide_eq_true in E as ->.
  unfold hasattr. rewrite bool_decide_false; [done|].
  rewrite Hk. by intros [??].
Qed.

Lemma update_attrs_absent sub kwargs k :
  (∀ v, (k, v) ∉ kwargs) → update_attrs sub kwargs !! k = sub !! k.
Proof. intros H. apply update_attrs_skip. intros v Hv. by apply H in Hv. Qed.

Lemma update_attrs_cons sub kv kwargs :
  update_attrs sub (kv :: kwargs) = update_attrs (update_step sub kv) kwargs.
Proof. reflexivity. Qed.

Lemma kwarg_cons k0 v0 kwargs k :
  kwarg ((k0, v0) :: kwargs) k
  = if String.eqb k0 k then Some v0 else kwarg kwargs k.
Proof. unfold kwarg. simpl. by destruct (String.eqb k0 k). Qed.

(** X25. What [update] does to each attribute, for keyword arguments with
    distinct names (they come from a [dict]): an attribute the row does
    not have is not created; an attribute named with a value other than
    [None] takes that value; every other attribute keeps its own. *)
Theorem update_attrs_spec (sub : gmap string value)
    (kwargs : list (string * value)) (k : string) :
  NoDup kwargs.*1 →
  update_attrs sub kwargs !! k
  = match sub !! k, kwarg kwargs k with
    | None, _ => None
    | Some old, Some v => if is_not_none v then Some v else Some old
    | Some old, None => Some old
    end.
Proof.
  revert sub.
  induction kwargs as [|[k0 v0] kwargs IH]; intros sub Hnd.
  - unfold update_attrs, kwarg. simpl. by destruct (sub !! k).
  - apply NoDup_cons in Hnd as [Hk0 Hnd].
    rewrite update_attrs_cons, kwarg_cons.
    destruct (String.eqb k0 k) eqn:E.
    + apply String.eqb_eq in E as ->.
      rewrite update_attrs_absent.
      * rewrite update_step_lookup, bool_decide_true by done. simpl.
        unfold hasattr. destruct (sub !! k) as [old|] eqn:Hs.
        -- rewrite bool_decide_true by eauto. simpl.
           by destruct (is_not_none v0).
        -- rewrite bool_decide_false by (by intros [??]). done.
      * intros v Hv. apply Hk0. apply list_elem_of_fmap.
        by exists (k, v).
    + apply String.eqb_neq in E. rewrite IH by done.
      rewrite update_step_lookup, bool_decide_false by done. done.
Qed.

Lemma update_attrs_spec_witness :
  update_attrs row0
    [("title", VNone); ("status", VStr "published")]%string
  !! "status"%string
  = match row0 !! "status"%string,
          kwarg [("title", VNone); ("status", VStr "published")]%string
                "status" with
    | None, _ => None
    | Some old, Some v => if is_not_none v then Some v else Some old
    | Some old, None => Some old
    end.
Proof.
  apply update_attrs_spec. simpl.
  rewrite !NoDup_cons, !not_elem_of_cons.
  repeat split; try discriminate; try apply not_elem_of_nil.
  apply NoDup_nil_2.
Defined.

Lemma kwargs_of_no_change : 
  ∀ k v, (k, v) ∈ kwargs_of no_change → v = VNone.
Proof.
  intros k v H. unfold kwargs_of, no_change in H. simpl in H.
  repeat (apply elem_of_cons in H as [[= _ ->]|H]; [done|]).
  by apply elem_of_nil in H.
Qed.

(** X26. An update request in which every field is left out changes
    nothing: [SubmissionService.update] returns the row as it is and the
    table is the same. *)
Theorem empty_update_changes_nothing (t : gmap Z (gmap string value))
    (id : Z) (sub : gmap string value) :
  get_by_id t id = Some sub →
  service_update t id no_change = (Some sub, t).
Proof.
  intros Hsub. unfold service_update, update. rewrite Hsub.
  assert (E : update_attrs sub (kwargs_of no_change) = sub).
  { apply map_eq. intros k. apply update_attrs_skip.
    apply kwargs_of_no_change. }
  rewrite E. by rewrite insert_id.
Qed.

Lemma empty_update_changes_nothing_witness :
  service_update {[ 1 := row0 ]} 1 no_change = (Some row0, {[ 1 := row0 ]}).
Proof.
  apply empty_update_changes_nothing. apply lookup_singleton_eq.
Defined.

(** X27. A user who is neither the owner of a submission nor holds the
    role "admin" can neither change nor delete it: both requests are
    answered 403 and the table stays as it is. For a submission whose
    owner column is null this is every user but an admin. *)
Theorem not_owner_not_admin_forbidden (cs : list Comments.Comment)
    (t : gmap Z (gmap string value))
    (user : Comments.UserDTO) (id : Z) (data : SubmissionUpdateDTO)
    (existing : gmap string value) :
  get_by_id t id = Some existing →
  owner_of existing ≠ Some (Comments.u_id user) →
  "admin"%string ∉ Comments.u_roles user →
  update_submission t user id data = (Err 403, t)
  ∧ delete_submission cs t user id = (Err 403, t).
Proof.
  intros Hget Hown Hadm.
  assert (Hf : forbidden existing user = true).
  { unfold forbidden. rewrite bool_decide_false by done. cbn [negb andb].
    apply negb_true_iff. apply not_true_is_false. intros H.
    apply List.existsb_exists in H as (r & Hin & Heq).
    apply String.eqb_eq in Heq as <-.
    by apply list_elem_of_In in Hin. }
  unfold update_submission, delete_submission. by rewrite Hget, Hf.
Qed.

Definition owned_by (uid : Z) : gmap string value :=
  {[ "title" := VStr "Missing"; "user_id" := VInt uid ]}%string.

Lemma not_owner_not_admin_forbidden_witness :
  update_submission {[ 1 := owned_by 3 ]} (Comments.mkUser 4 ["user"]%string)
    1 no_change = (Err 403, {[ 1 := owned_by 3 ]})
  ∧ delete_submission [] {[ 1 := owned_by 3 ]}
      (Comments.mkUser 4 ["user"]%string) 1
    = (Err 403, {[ 1 := owned_by 3 ]}).
Proof.
  apply (not_owner_not_admin_forbidden [] _ _ _ _ (owned_by 3)).
  - apply lookup_singleton_eq.
  - vm_compute. discriminate.
  - simpl. rewrite not_elem_of_cons. split; [discriminate|].
    apply not_elem_of_nil.
Defined.

Lemma has_comments_false cs id :
  Forall (λ c, Comments.c_submission_id c ≠ id) cs →
  has_comments cs id = false.
Proof.
  unfold has_comments. induction 1 as [|c cs Hc _ IH]; simpl; [done|].
  apply Z.eqb_neq in Hc. by rewrite Hc.
Qed.

Lemma has_comments_true cs id :
  Exists (λ c, Comments.c_submission_id c = id) cs →
  has_comments cs id = true.
Proof.
  unfold has_comments. induction 1 as [c cs Hc|c cs _ IH]; simpl.
  - apply Z.eqb_eq in Hc. by rewrite Hc.
  - rewrite IH. apply orb_true_r.
Qed.

(** X28. The owner of a submission, and any admin, can delete it as long
    as it has no comments: the request succeeds, the submission is gone,
    every other submission is still there, and a second request for the
    id is answered 404. When a comment refers to the submission the
    request fails with 500 and the submission stays. *)
Theorem owner_or_admin_deletes (cs : list Comments.Comment)
    (t : gmap Z (gmap string value))
    (user : Comments.UserDTO) (id : Z) (existing : gmap string value) :
  get_by_id t id = Some existing →
  owner_of existing = Some (Comments.u_id user)
  ∨ "admin"%string ∈ Comments.u_roles user →
  (Forall (λ c, Comments.c_submission_id c ≠ id) cs →
   ∃ t', delete_submission cs t user id = (Ok tt, t')
         ∧ get_by_id t' id = None
         ∧ (∀ id', id' ≠ id → get_by_id t' id' = get_by_id t id')
         ∧ delete_submission cs t' user id = (Err 404, t'))
  ∧ (Exists (λ c, Comments.c_submission_id c = id) cs →
     delete_submission cs t user id = (Err 500, t)).
Proof.
  intros Hget Hallowed.
  assert (Hf : forbidden existing user = false).
  { unfold forbidden. destruct Hallowed as [Hown|Hadm].
    - by rewrite bool_decide_true.
    - apply andb_false_iff. right. apply negb_false_iff.
      apply List.existsb_exists. exists "admin"%string.
      split; [by apply list_elem_of_In|done]. }
  unfold delete_submission, repo_delete. rewrite Hget, Hf. split.
  - intros Hnone. rewrite (has_comments_false _ _ Hnone). simpl.
    exists (delete id t). unfold get_by_id.
    rewrite lookup_delete_eq. split; [done|]. split; [done|].
    split; [|done]. intros id' Hne. by apply lookup_delete_ne.
  - intros Hsome. by rewrite (has_comments_true _ _ Hsome).
Qed.

Definition comment_on (submission_id : Z) : Comments.Comment :=
  Comments.mkComment 1 submission_id (Some 4) "seen" None "pending" None
                     (mkDatetime 2024 6 2 0).

Lemma owner_or_admin_deletes_witness :
  (∃ t', delete_submission [comment_on 2] {[ 1 := owned_by 3 ]}
           (Comments.mkUser 3 ["user"]%string) 1 = (Ok tt, t')
         ∧ get_by_id t' 1 = None
         ∧ (∀ id', id' ≠ 1 →
              get_by_id t' id' = get_by_id {[ 1 := owned_by 3 ]} id')
         ∧ delete_submission [comment_on 2] t'
             (Comments.mkUser 3 ["user"]%string) 1
           = (Err 404, t'))
  ∧ (Exists (λ c, Comments.c_submission_id c = 1) [comment_on 2] →
     delete_submission [comment_on 2] {[ 1 := owned_by 3 ]}
       (Comments.mkUser 3 ["user"]%string) 1
     = (Err 500, {[ 1 := owned_by 3 ]})).
Proof.
  destruct (owner_or_admin_deletes [comment_on 2] {[ 1 := owned_by 3 ]}
              (Comments.mkUser 3 ["user"]%string) 1 (owned_by 3))
    as [Hok Herr].
  - apply lookup_singleton_eq.
  - left. vm_compute. reflexivity.
  - split; [|exact Herr]. apply Hok.
    repeat constructor. simpl. lia.
Defined.

(** The submission has a comment: its owner's request to delete it is
    answered 500 and the table is as before. *)
Example delete_with_comment :
  delete_submission [comment_on 1] {[ 1 := owned_by 3 ]}
    (Comments.mkUser 3 ["user"]%string) 1
  = (Err 500, {[ 1 := owned_by 3 ]}).
Proof. vm_compute. reflexivity. Qed.

End UpdateProps.

(* ===================================================================== *)
(** * Further properties of the age progression *)
(* ===================================================================== *)

Module AgeProgressionProps.
Import Entity AgeProgression.

Lemma prefix_app_self (s t : string) : String.prefix s (s +:+ t) = true.
Proof.
  induction s as [|c s IH]; simpl; [by destruct t|].
  destruct (ascii_dec c c) as [_|Hne]; [exact IH|done].
Qed.

Lemma generate_post (e : env) (files files' : gmap string string)
    (id : Z) (src : string) (years : Z) (base_url : string)
    (target_age : option Z) (r : option string) :
  generate_age_progression e files id src years base_url target_age
  = (r, files') →
  let path := cache_path_of (cache_filename id (norm_years years) target_age)
  in
  match r with
  | Some u =>
      u = public_url e base_url
            (cache_filename id (norm_years years) target_age)
      ∧ is_Some (files' !! path)
      ∧ (∀ p, p ≠ path → files' !! p = files !! p)
  | None => files' = files
  end.
Proof.
  unfold generate_age_progression. intros H. simpl.
  destruct (files !! cache_path_of _) as [c|] eqn:Hc.
  { injection H as <- <-. by rewrite Hc. }
  destruct (download e _) as [src_bytes|]; [|by injection H as <- <-].
  destruct (try_spaces _ _ _ _ _ _) as [enhanced|].
  { injection H as <- <-. rewrite lookup_insert_eq.
    split; [done|]. split; [eauto|].
    intros p Hp. by apply lookup_insert_ne. }
  destruct (negb _ && can_write e _).
  - injection H as <- <-. rewrite lookup_insert_eq.
    split; [done|]. split; [eauto|].
    intros p Hp. by apply lookup_insert_ne.
  - by injection H as <- <-.
Qed.




(** X30. The age-progression endpoint shows what the public endpoint
    shows: it answers 404 whenever [get_submission] does, and 400 for a
    public submission without images; in both cases before anything is
    downloaded or written. In every case the only file it can touch is one
    under [files/age_progression/]. *)
Theorem age_progression_guards (e : env) (files : gmap string string)
    (t : list Submission) (now : datetime) (request_base_url : string)
    (id : Z) :
  (Submissions.get_submission t id = Err 404 →
   age_progression e files t now request_base_url id = (Err 404, files))
  ∧ (∀ item, Submissions.get_submission t id = Ok item →
       images item = None ∨ images item = Some [] →
       age_progression e files t now request_base_url id
       = (Err 400, files))
  ∧ (∀ p, String.prefix "files/age_progression/" p = false →
       (age_progression e files t now request_base_url id).2 !! p
       = files !! p).
Proof.
  unfold Submissions.get_submission, age_progression.
  destruct (Submissions.service_get t id) as [item|]; [|done].
  destruct (is_public (status item)) eqn:Ep; simpl; [|done].
  split; [discriminate|]. split.
  - intros item' [= <-] [-> | ->]; done.
  - intros p Hp.
    destruct (images item) as [[|source_url imgs]|]; try done.
    destruct (generate_age_progression _ _ _ _ _ _ _) as [u files'] eqn:G.
    apply generate_post in G. simpl in G.
    assert (Hfiles : files' !! p = files !! p).
    { destruct u as [url|]; [|by rewrite G].
      destruct G as (_ & _ & G). apply G. intros ->.
      unfold cache_path_of in Hp.
      by rewrite prefix_app_self in Hp. }
    destruct u as [url|]; [|done]. by destruct (String.eqb url "").
Qed.

End AgeProgressionProps.
